(** * Keyboard registration: device discovery and slot arbitration

    A shallow embedding of [src/util/keyboard.py] and of the part of
    [src/main.py] that starts the monitoring thread and polls for its
    completion.

    Python dictionaries iterate in insertion order and the loops of the
    program perform effects (close, fcntl, print) while iterating, so a
    dictionary is an insertion-ordered association list.  [InputDevice]
    objects are shared by reference between [open_devices] and
    [player_keyboards]; their mutable part lives in a store indexed by
    object identity.  Operating-system behaviour (which devices exist, which
    calls fail, which events arrive) is an explicit oracle.

    Left out: [time.sleep], and [ui_update_lock] -- the thread is the only
    writer of the state it guards and [main.py] never takes it.  The
    directory calls [os.path.exists], [os.listdir], [os.path.realpath] and
    [evdev.list_devices] are taken not to raise.  Garbage collection is not
    modelled: a device is closed when the program calls [close()] on it,
    not when its object becomes unreachable. *)

From stdpp Require Import base list gmap strings pretty.
From Stdlib Require Import ZArith Lia.

Local Open Scope Z_scope.

(** ** Constants of the [evdev.ecodes] and [os] modules (Linux values) *)

Module ecodes.
Definition EV_KEY : Z := 1.
Definition KEY_1 : Z := 2.
Definition KEY_ENTER : Z := 28.
Definition KEY_A : Z := 30.
Definition KEY_Z : Z := 44.
Definition KEY_SPACE : Z := 57.
End ecodes.

Definition O_NONBLOCK : Z := 2048.

(** ** Insertion-ordered dictionaries *)

Section PyDict.
Context {K V : Type} `{EqDecision K}.

Definition PyDict : Type := list (K * V).

(** [d.get(k)] *)
Fixpoint dict_get (d : PyDict) (k : K) : option V :=
  match d with
  | [] => None
  | (k', v) :: d' => if decide (k = k') then Some v else dict_get d' k
  end.

(** [k in d] *)
Definition dict_mem (d : PyDict) (k : K) : bool :=
  match dict_get d k with Some _ => true | None => false end.

(** [d[k] = v]: an existing key keeps its position, a new key goes last. *)
Fixpoint dict_set (d : PyDict) (k : K) (v : V) : PyDict :=
  match d with
  | [] => [(k, v)]
  | (k', v') :: d' =>
      if decide (k = k') then (k, v) :: d' else (k', v') :: dict_set d' k v
  end.

(** [del d[k]] on a key that is present. *)
Fixpoint dict_del (d : PyDict) (k : K) : PyDict :=
  match d with
  | [] => []
  | (k', v') :: d' =>
      if decide (k = k') then d' else (k', v') :: dict_del d' k
  end.

Definition dict_keys (d : PyDict) : list K := d.*1.
Definition dict_values (d : PyDict) : list V := d.*2.
End PyDict.

Arguments PyDict : clear implicits.

(** ** Devices, events, exceptions *)

(** The mutable part of an [InputDevice]: [InputDevice.close] sets [fd] to
    [-1]; the status flags are those of the open file. *)
Record Handle := mkHandle { h_fd : Z; h_flags : Z }.

(** A reference to an [InputDevice] object.  [path] and [name] are assigned
    by the constructor and never reassigned, so the reference carries them;
    [oid] is the identity of the object in the store. *)
Record InputDevice := mkDev { oid : nat; path : string; name : string }.

Record InputEvent := mkEvent { ev_type : Z; ev_code : Z; ev_value : Z }.

(** [evdev.KeyEvent]: the constructor sets [keystate] for the values 0, 1
    and 2 only. *)
Module KeyEvent.
Definition key_up : Z := 0.
Definition key_down : Z := 1.
Definition key_hold : Z := 2.
Record t := mk { scancode : Z; keystate : option Z }.
End KeyEvent.

Definition key_event (e : InputEvent) : KeyEvent.t :=
  KeyEvent.mk (ev_code e)
    (if ev_value e =? 0 then Some KeyEvent.key_up
     else if ev_value e =? 2 then Some KeyEvent.key_hold
     else if ev_value e =? 1 then Some KeyEvent.key_down
     else None).

Inductive exn :=
| BlockingIOError
| OSError
| ValueError
| KeyError
| AttributeError
| RuntimeError.


(** What [print] writes, one constructor per message of the program. *)
Inductive Message :=
| MsgStarting
| MsgErrorClosingOld (fd : Z) (e : exn)
| MsgSelectValueError
| MsgSelectUnexpected (e : exn)
| MsgKeyPress (dev : InputDevice)
| MsgAssigned (player : Z) (dev : InputDevice)
| MsgBothRegistered
| MsgReadOSError (dev : InputDevice) (e : exn)
| MsgErrorProcessing (dev : InputDevice) (e : exn)
| MsgFinished.

(** Calls that leave the thread, in program order. *)
Inductive Call :=
| CallDiscover
| CallOpen (p : string)
| CallClose (o : nat)
| CallAfter (player_id : Z)
| CallPrint (m : Message).

(** ** Program state *)

Record State := mkState {
  heap : list Handle;
  trace : list Call;
  (* the dictionary object created in main.py, shared by reference *)
  player_keyboards : PyDict Z InputDevice;
  (* module globals of main.py that are passed by value *)
  main_current_player_registering : Z;
  main_is_running : bool;
  (* frame of monitor_keyboards_thread *)
  current_player_registering : Z;
  is_running : bool;
  open_devices : PyDict Z InputDevice
}.

Definition set_heap (h : list Handle) (s : State) : State :=
  mkState h (trace s) (player_keyboards s) (main_current_player_registering s)
    (main_is_running s) (current_player_registering s) (is_running s)
    (open_devices s).

Definition set_trace (t : list Call) (s : State) : State :=
  mkState (heap s) t (player_keyboards s) (main_current_player_registering s)
    (main_is_running s) (current_player_registering s) (is_running s)
    (open_devices s).

Definition set_player_keyboards (d : PyDict Z InputDevice) (s : State) : State :=
  mkState (heap s) (trace s) d (main_current_player_registering s)
    (main_is_running s) (current_player_registering s) (is_running s)
    (open_devices s).

Definition set_current_player_registering (n : Z) (s : State) : State :=
  mkState (heap s) (trace s) (player_keyboards s)
    (main_current_player_registering s) (main_is_running s) n (is_running s)
    (open_devices s).

Definition set_is_running (b : bool) (s : State) : State :=
  mkState (heap s) (trace s) (player_keyboards s)
    (main_current_player_registering s) (main_is_running s)
    (current_player_registering s) b (open_devices s).

Definition set_open_devices (d : PyDict Z InputDevice) (s : State) : State :=
  mkState (heap s) (trace s) (player_keyboards s)
    (main_current_player_registering s) (main_is_running s)
    (current_player_registering s) (is_running s) d.

(** ** A state monad with exceptions

    The state survives a raise: assignments made inside a [try] block before
    the exception are kept, as in Python. *)

Inductive result (A : Type) :=
| Ok (a : A)
| Raise (e : exn).
Arguments Ok {A} a.
Arguments Raise {A} e.

Definition M (A : Type) : Type := State -> result A * State.

Definition ret {A} (a : A) : M A := fun s => (Ok a, s).
Definition raise {A} (e : exn) : M A := fun s => (Raise e, s).

Definition bind {A B} (m : M A) (k : A -> M B) : M B :=
  fun s =>
    match m s with
    | (Ok a, s') => k a s'
    | (Raise e, s') => (Raise e, s')
    end.

(** [try: m  except <handler>]; a handler re-raises what it does not catch. *)
Definition try_except {A} (m : M A) (handler : exn -> M A) : M A :=
  fun s =>
    match m s with
    | (Ok a, s') => (Ok a, s')
    | (Raise e, s') => handler e s'
    end.

Notation "x <- m ;; k" := (bind m (fun x => k))
  (at level 90, m at level 50, right associativity).
Notation "m ;;; k" := (bind m (fun _ => k))
  (at level 90, right associativity).

Definition get : M State := fun s => (Ok s, s).
Definition modify (f : State -> State) : M unit := fun s => (Ok tt, f s).
Definition emit (c : Call) : M unit := modify (fun s => set_trace (trace s ++ [c]) s).
Definition print (m : Message) : M unit := emit (CallPrint m).

(** ** The operating system as an oracle *)

Record OS := mkOS {
  by_id_exists : bool;                 (* os.path.exists('/dev/input/by-id') *)
  by_id_listdir : list string;         (* os.listdir('/dev/input/by-id') *)
  realpath : string -> string;         (* os.path.realpath *)
  list_devices : list string;          (* evdev.list_devices() *)
  open_result : string -> option string;   (* InputDevice(p): its name, or a failure *)
  open_flags : string -> Z;            (* status flags of a freshly opened file *)
  capabilities : string -> option (gmap Z (list Z));  (* None: the query fails *)
  fcntl_fails : Z -> bool;
  close_fails : nat -> bool;
  key_known : Z -> bool                (* the code is in evdev.ecodes.keys *)
}.

(** File descriptors: the lowest number from 3 that no open handle uses. *)
Fixpoint first_free (used : list Z) (fuel : nat) (n : Z) : Z :=
  match fuel with
  | O => n
  | S fuel' => if bool_decide (n ∈ used) then first_free used fuel' (n + 1) else n
  end.

Definition alloc_fd (h : list Handle) : Z :=
  first_free (h_fd <$> h) (length h) 3.

(** [InputDevice(p)] *)
Definition InputDevice_open (os : OS) (p : string) : M InputDevice := fun s =>
  let s := set_trace (trace s ++ [CallOpen p]) s in
  match open_result os p with
  | None => (Raise OSError, s)
  | Some nm =>
      (Ok (mkDev (length (heap s)) p nm),
       set_heap (heap s ++ [mkHandle (alloc_fd (heap s)) (open_flags os p)]) s)
  end.

(** [dev.fd] *)
Definition dev_fd (dev : InputDevice) : M Z := fun s =>
  match heap s !! oid dev with
  | Some h => (Ok (h_fd h), s)
  | None => (Raise AttributeError, s)
  end.

(** [dev.close()]: a no-op on a closed device; otherwise the descriptor is
    released and [fd] becomes -1 even when [os.close] raises. *)
Definition close_handle (h : Handle) : Handle := mkHandle (-1) (h_flags h).

Definition dev_close (os : OS) (dev : InputDevice) : M unit := fun s =>
  let s := set_trace (trace s ++ [CallClose (oid dev)]) s in
  match heap s !! oid dev with
  | Some h =>
      if -1 <? h_fd h then
        let s' := set_heap (<[oid dev := close_handle h]> (heap s)) s in
        if close_fails os (oid dev) then (Raise OSError, s') else (Ok tt, s')
      else (Ok tt, s)
  | None => (Raise AttributeError, s)
  end.

(** [fcntl.fcntl(fd, F_GETFL)]: [ValueError] for a negative descriptor,
    [OSError] for one that is not open. *)
Definition fcntl_getfl (os : OS) (fd : Z) : M Z := fun s =>
  if negb (-1 <? fd) then (Raise ValueError, s)
  else if fcntl_fails os fd then (Raise OSError, s)
  else
    match filter (fun h => h_fd h = fd) (heap s) with
    | h :: _ => (Ok (h_flags h), s)
    | [] => (Raise OSError, s)
    end.

(** [fcntl.fcntl(fd, F_SETFL, v)] *)
Definition setfl (fd v : Z) (h : Handle) : Handle :=
  if decide (h_fd h = fd) then mkHandle (h_fd h) v else h.

Definition fcntl_setfl (os : OS) (fd v : Z) : M unit := fun s =>
  if negb (-1 <? fd) then (Raise ValueError, s)
  else if fcntl_fails os fd then (Raise OSError, s)
  else (Ok tt, set_heap (setfl fd v <$> heap s) s).

(** [device.capabilities()] *)
Definition dev_capabilities (os : OS) (dev : InputDevice) : M (gmap Z (list Z)) :=
  fun s =>
    match capabilities os (path dev) with
    | Some c => (Ok c, s)
    | None => (Raise OSError, s)
    end.

(** [categorize(event)] for an [EV_KEY] event: the [KeyEvent] constructor
    raises [KeyError] for a code that [ecodes.keys] does not name. *)
Definition categorize (os : OS) (e : InputEvent) : M KeyEvent.t :=
  if key_known os (ev_code e) then ret (key_event e) else raise KeyError.

(** ** [is_keyboard] *)

Definition reference_keys : list Z :=
  [ecodes.KEY_A; ecodes.KEY_Z; ecodes.KEY_SPACE; ecodes.KEY_ENTER; ecodes.KEY_1].

(** [any(k in device.capabilities()[ecodes.EV_KEY] for k in ks)]: the
    generator queries the device again for every [k] it tries. *)
Fixpoint any_key (os : OS) (dev : InputDevice) (ks : list Z) : M bool :=
  match ks with
  | [] => ret false
  | k :: ks' =>
      c <- dev_capabilities os dev ;;
      match c !! ecodes.EV_KEY with
      | None => raise KeyError
      | Some codes =>
          if bool_decide (k ∈ codes) then ret true else any_key os dev ks'
      end
  end.

Definition is_keyboard (os : OS) (dev : InputDevice) : M bool :=
  c <- dev_capabilities os dev ;;
  match c !! ecodes.EV_KEY with
  | None => ret false
  | Some _ =>
      b <- any_key os dev reference_keys ;;
      if b then ret true else ret false
  end.

(** ** [discover_available_keyboards] *)

Definition by_id_path : string := "/dev/input/by-id".

(** [os.path.join(a, b)] for a relative [b] *)
Definition path_join (a b : string) : string := a +:+ "/" +:+ b.

(** The [try] statement of both enumeration loops: open, classify, record
    under [dev.path] or close; any exception is swallowed. *)
Definition scan_candidate (os : OS) (p : string)
    (by_id_devices : PyDict string InputDevice) : M (PyDict string InputDevice) :=
  try_except
    (dev <- InputDevice_open os p ;;
     k <- is_keyboard os dev ;;
     if k then ret (dict_set by_id_devices (path dev) dev)
     else (dev_close os dev ;;; ret by_id_devices))
    (fun _ => ret by_id_devices).

(** [for entry in os.listdir(by_id_path)] *)
Fixpoint scan_by_id (os : OS) (entries : list string)
    (by_id_devices : PyDict string InputDevice) : M (PyDict string InputDevice) :=
  match entries with
  | [] => ret by_id_devices
  | entry :: rest =>
      let full_path := path_join by_id_path entry in
      let event_path := realpath os full_path in
      if String.prefix "/dev/input/event" event_path then
        d <- scan_candidate os event_path by_id_devices ;;
        scan_by_id os rest d
      else scan_by_id os rest by_id_devices
  end.

(** [for path in evdev.list_devices()] *)
Fixpoint scan_fallback (os : OS) (paths : list string)
    (by_id_devices : PyDict string InputDevice) : M (PyDict string InputDevice) :=
  match paths with
  | [] => ret by_id_devices
  | p :: rest =>
      if negb (dict_mem by_id_devices p) then
        d <- scan_candidate os p by_id_devices ;;
        scan_fallback os rest d
      else scan_fallback os rest by_id_devices
  end.

(** [for path, dev in by_id_devices.items()]: no [try] here, an exception of
    [fcntl] or [close] leaves the function. *)
Fixpoint filter_unassigned (os : OS) (assigned_paths : list string)
    (items : list (string * InputDevice))
    (available_devices : PyDict Z InputDevice) : M (PyDict Z InputDevice) :=
  match items with
  | [] => ret available_devices
  | (p, dev) :: rest =>
      if bool_decide (p ∉ assigned_paths) then
        fd <- dev_fd dev ;;
        flag <- fcntl_getfl os fd ;;
        fcntl_setfl os fd (Z.lor flag O_NONBLOCK) ;;;
        filter_unassigned os assigned_paths rest (dict_set available_devices fd dev)
      else
        dev_close os dev ;;;
        filter_unassigned os assigned_paths rest available_devices
  end.

(** The two enumeration loops, giving [by_id_devices]. *)
Definition enumerate_keyboards (os : OS) : M (PyDict string InputDevice) :=
  d <- (if by_id_exists os then scan_by_id os (by_id_listdir os) [] else ret []) ;;
  scan_fallback os (list_devices os) d.

Definition assigned_paths_of (s : State) : list string :=
  path <$> dict_values (player_keyboards s).

Definition discover_available_keyboards (os : OS) : M (PyDict Z InputDevice) :=
  emit CallDiscover ;;;
  by_id_devices <- enumerate_keyboards os ;;
  s <- get ;;
  filter_unassigned os (assigned_paths_of s) by_id_devices [].

(** ** [monitor_keyboards_thread] *)

Inductive SelectResult :=
| Ready (rlist : list Z)
| SelectRaises (e : exn).

Inductive ReadResult :=
| Events (evs : list InputEvent)
| ReadRaises (e : exn).

(** What the environment does during one iteration of the [while] loop. *)
Record Cycle := mkCycle {
  cy_os : OS;
  cy_select : list Z -> SelectResult;     (* select.select(read_fds, [], [], 0.05) *)
  cy_read : InputDevice -> ReadResult;    (* dev.read() *)
  cy_after_fails : bool                   (* root.after raises RuntimeError *)
}.

(** [root.after(0, update_ui, player_id)] *)
Definition root_after (c : Cycle) (player_id : Z) : M unit :=
  emit (CallAfter player_id) ;;;
  if cy_after_fails c then raise RuntimeError else ret tt.

(** [for dev in devs: try: dev.close() except Exception: pass] *)
Fixpoint close_all_quiet (os : OS) (devs : list InputDevice) : M unit :=
  match devs with
  | [] => ret tt
  | dev :: rest =>
      try_except (dev_close os dev) (fun _ => ret tt) ;;;
      close_all_quiet os rest
  end.

(** [for fd in fds_to_close], lines 112-118 *)
Fixpoint close_stale (os : OS) (fds_to_close : list Z) : M unit :=
  match fds_to_close with
  | [] => ret tt
  | fd :: rest =>
      try_except
        (s <- get ;;
         match dict_get (open_devices s) fd with
         | None => raise KeyError
         | Some dev =>
             dev_close os dev ;;;
             modify (fun s => set_open_devices (dict_del (open_devices s) fd) s)
         end)
        (fun e => print (MsgErrorClosingOld fd e)) ;;;
      close_stale os rest
  end.

(** [for fd, dev in newly_available_devices.items()], lines 121-123 *)
Fixpoint add_new (items : list (Z * InputDevice))
    (open_devices : PyDict Z InputDevice) : PyDict Z InputDevice :=
  match items with
  | [] => open_devices
  | (fd, dev) :: rest =>
      add_new rest
        (if negb (dict_mem open_devices fd) then dict_set open_devices fd dev
         else open_devices)
  end.

(** Body of [for event in dev.read()], lines 164-181; [true] is [break]. *)
Definition process_event (c : Cycle) (dev : InputDevice) (event : InputEvent)
    : M bool :=
  if ev_type event =? ecodes.EV_KEY then
    data <- categorize (cy_os c) event ;;
    match KeyEvent.keystate data with
    | None => raise AttributeError
    | Some keystate =>
        if keystate =? KeyEvent.key_down then
          print (MsgKeyPress dev) ;;;
          s <- get ;;
          if (current_player_registering s <=? 2)
             && bool_decide (path dev ∉ assigned_paths_of s)
          then
            modify (fun s => set_player_keyboards
                      (dict_set (player_keyboards s) (current_player_registering s) dev) s) ;;;
            print (MsgAssigned (current_player_registering s) dev) ;;;
            modify (fun s => set_current_player_registering
                      (current_player_registering s + 1) s) ;;;
            s' <- get ;;
            root_after c (current_player_registering s') ;;;
            if 2 <? current_player_registering s' then
              print MsgBothRegistered ;;;
              modify (set_is_running false) ;;;
              ret true
            else ret false
          else ret false
        else ret false
    end
  else ret false.

Fixpoint process_events (c : Cycle) (dev : InputDevice)
    (events : list InputEvent) : M unit :=
  match events with
  | [] => ret tt
  | event :: rest =>
      brk <- process_event c dev event ;;
      if brk then ret tt else process_events c dev rest
  end.

(** Body of [for fd in rlist], lines 157-198; [true] is [break]. *)
Definition process_fd (c : Cycle) (fd : Z) : M bool :=
  s <- get ;;
  match dict_get (open_devices s) fd with
  | None => ret false
  | Some dev =>
      try_except
        (match cy_read c dev with
         | ReadRaises e => raise e
         | Events evs => process_events c dev evs
         end ;;;
         s <- get ;;
         if negb (is_running s) then ret true else ret false)
        (fun e =>
           match e with
           | BlockingIOError => ret false
           | OSError =>
               print (MsgReadOSError dev e) ;;;
               s <- get ;;
               (if dict_mem (open_devices s) fd then
                  s <- get ;;
                  try_except
                    (match dict_get (open_devices s) fd with
                     | None => raise KeyError
                     | Some d => dev_close (cy_os c) d
                     end)
                    (fun _ => ret tt) ;;;
                  modify (fun s => set_open_devices (dict_del (open_devices s) fd) s)
                else ret tt) ;;;
               ret true
           | _ => print (MsgErrorProcessing dev e) ;;; ret false
           end)
  end.

Fixpoint process_ready (c : Cycle) (rlist : list Z) : M unit :=
  match rlist with
  | [] => ret tt
  | fd :: rest =>
      brk <- process_fd c fd ;;
      if brk then ret tt else process_ready c rest
  end.

(** Lines 131-154: the wait and its two handlers; [None] is [continue]. *)
Definition wait_ready (c : Cycle) : M (option (list Z)) :=
  s <- get ;;
  let read_fds := dict_keys (open_devices s) in
  match cy_select c read_fds with
  | Ready rlist => ret (Some rlist)
  | SelectRaises ValueError =>
      print MsgSelectValueError ;;;
      s <- get ;;
      close_all_quiet (cy_os c) (dict_values (open_devices s)) ;;;
      modify (set_open_devices []) ;;;
      ret None
  | SelectRaises e =>
      print (MsgSelectUnexpected e) ;;;
      ret None
  end.

(** Lines 109-202: what an iteration does with the scan result. *)
Definition watch_devices (c : Cycle)
    (newly_available_devices : PyDict Z InputDevice) : M unit :=
  s <- get ;;
  let fds_to_close :=
    filter (fun fd => negb (dict_mem newly_available_devices fd))
           (dict_keys (open_devices s)) in
  close_stale (cy_os c) fds_to_close ;;;
  modify (fun s => set_open_devices (add_new newly_available_devices (open_devices s)) s) ;;;
  s <- get ;;
  match open_devices s with
  | [] => ret tt
  | _ :: _ =>
      r <- wait_ready c ;;
      match r with
      | None => ret tt
      | Some rlist => process_ready c rlist
      end
  end.

(** One iteration of the [while] loop after its two exit tests. *)
Definition loop_body (c : Cycle) : M unit :=
  newly_available_devices <- discover_available_keyboards (cy_os c) ;;
  watch_devices c newly_available_devices.

Inductive LoopStatus :=
| Exited        (* the [while] loop was left *)
| StillRunning. (* the environment was described no further *)

(** [while is_running:] with the [break] of line 103. *)
Fixpoint monitor_loop (cycles : list Cycle) : M LoopStatus := fun s =>
  if negb (is_running s) then (Ok Exited, s)
  else if 2 <? current_player_registering s then (Ok Exited, s)
  else
    match cycles with
    | [] => (Ok StillRunning, s)
    | c :: rest =>
        match loop_body c s with
        | (Ok _, s') => monitor_loop rest s'
        | (Raise e, s') => (Raise e, s')
        end
    end.

(** Lines 204-215 *)
Definition final_cleanup (os : OS) : M unit :=
  print MsgFinished ;;;
  s <- get ;;
  close_all_quiet os (dict_values (open_devices s)) ;;;
  s <- get ;;
  close_all_quiet os (dict_values (player_keyboards s)).

(** The thread function; its frame is bound by [thread_start]. *)
Definition monitor_keyboards_thread (cycles : list Cycle) (final_os : OS)
    : M LoopStatus :=
  print MsgStarting ;;;
  modify (set_open_devices []) ;;;
  st <- monitor_loop cycles ;;
  match st with
  | Exited => final_cleanup final_os ;;; ret Exited
  | StillRunning => ret StillRunning
  end.

(** ** [main.py] *)

(** Module globals at import time. *)
Definition initial_state : State :=
  mkState [] [] [] 1 true 1 true [].

(** [threading.Thread(target=monitor_keyboards_thread, args=(current_player_registering,
    player_keyboards, is_running, ...))]: the integer and the boolean are
    copied into the thread's frame, the dictionary is passed by reference. *)
Definition thread_start (s : State) : State :=
  set_open_devices []
    (set_is_running (main_is_running s)
       (set_current_player_registering (main_current_player_registering s) s)).

Inductive Poll :=
| Quit         (* windows destroyed, [root.quit()] *)
| Reschedule.  (* [root.after(100, check_game_status_and_exit)] *)

Definition check_game_status_and_exit (s : State) : Poll :=
  if negb (main_is_running s) then Quit else Reschedule.

(** [start()] up to the point where the thread has run over [cycles]. *)
Definition start (cycles : list Cycle) (final_os : OS) : result LoopStatus * State :=
  monitor_keyboards_thread cycles final_os (thread_start initial_state).

(** * Specification vocabulary *)

(** [preserves R m]: every run of [m], normal or exceptional, relates the
    state before to the state after by [R]. *)
Definition preserves {A} (R : relation State) (m : M A) : Prop :=
  forall s, R s (m s).2.

(** ** Classification *)

Definition advertises_key_events (c : gmap Z (list Z)) : Prop :=
  is_Some (c !! ecodes.EV_KEY).

Definition exposes_reference_key (c : gmap Z (list Z)) : Prop :=
  exists codes k,
    c !! ecodes.EV_KEY = Some codes /\ k ∈ codes /\
    k ∈ [ecodes.KEY_A; ecodes.KEY_Z; ecodes.KEY_SPACE; ecodes.KEY_ENTER; ecodes.KEY_1].

(** [is_keyboard] answers [True] for the device. *)
Definition keyboard_like (os : OS) (dev : InputDevice) : Prop :=
  exists c, capabilities os (path dev) = Some c /\
            advertises_key_events c /\ exposes_reference_key c.

(** ** Handles *)

(** The object [o] is open while its [fd] is not [-1]. *)
Definition handle_open (s : State) (o : nat) : bool :=
  match heap s !! o with
  | Some h => -1 <? h_fd h
  | None => false
  end.

Definition is_open (s : State) (dev : InputDevice) : bool :=
  handle_open s (oid dev).

(** [O_NONBLOCK] is bit 11 of the status flags. *)
Definition nonblocking (h : Handle) : bool := Z.testbit (h_flags h) 11.

(** The device object is open on descriptor [fd], in non-blocking mode. *)
Definition ready_handle (s : State) (fd : Z) (dev : InputDevice) : Prop :=
  exists h, heap s !! oid dev = Some h /\ h_fd h = fd /\ -1 < fd /\
            nonblocking h = true.

(** Objects that a scan created between [s] and [s'], did not return and
    did not close. *)
Definition leaked (s : State) (returned : PyDict Z InputDevice) (s' : State)
    : list nat :=
  filter
    (fun o => handle_open s' o = true /\ o ∉ oid <$> dict_values returned)
    (seq (length (heap s)) (length (heap s') - length (heap s))).

(** What the two enumeration loops maintain about [by_id_devices]. *)
Definition enumerated (os : OS) (d : PyDict string InputDevice) (s : State) : Prop :=
  NoDup (dict_keys d) /\
  NoDup (oid <$> dict_values d) /\
  forall p dev, (p, dev) ∈ d ->
    path dev = p /\ keyboard_like os dev /\ (oid dev < length (heap s))%nat.

(** ** The ledger *)

(** The ledger invariant: the slots [1 .. current_player_registering - 1]
    are filled, in that order, by devices of pairwise distinct paths. *)
Definition ledger_inv (s : State) : Prop :=
  1 <= current_player_registering s <= 3 /\
  dict_keys (player_keyboards s) = seqZ 1 (current_player_registering s - 1) /\
  NoDup (assigned_paths_of s).

(** The state after the thread has processed one event of one device, and
    after a sequence of them in arrival order. *)
Definition arrive (c : Cycle) (s : State) (de : InputDevice * InputEvent) : State :=
  (process_event c de.1 de.2 s).2.

Definition arrivals (c : Cycle) (evs : list (InputDevice * InputEvent))
    (s : State) : State :=
  foldl (arrive c) s evs.

(** The guard of line 171 together with the tests on the event. *)
Definition assigns (c : Cycle) (dev : InputDevice) (ev : InputEvent) (s : State)
    : Prop :=
  ev_type ev = ecodes.EV_KEY /\ key_known (cy_os c) (ev_code ev) = true /\
  ev_value ev = 1 /\
  current_player_registering s <= 2 /\ path dev ∉ assigned_paths_of s.

(** ** Traces *)

Definition is_scan (c : Call) : bool :=
  match c with CallDiscover | CallOpen _ => true | _ => false end.

Definition is_discover (c : Call) : bool :=
  match c with CallDiscover => true | _ => false end.

Definition is_print (c : Call) : bool :=
  match c with CallPrint _ => true | _ => false end.

Definition is_after (c : Call) : bool :=
  match c with CallAfter _ => true | _ => false end.

(** The print of line 173 for player 2: the final slot has been written. *)
Definition is_final_assignment (c : Call) : bool :=
  match c with
  | CallPrint (MsgAssigned player _) => player =? 2
  | _ => false
  end.



(** What the scanner may do to the state: it opens, closes and configures
    handles and is silent otherwise. *)
Definition scan_frame (s s' : State) : Prop :=
  player_keyboards s' = player_keyboards s /\
  current_player_registering s' = current_player_registering s /\
  is_running s' = is_running s /\
  open_devices s' = open_devices s /\
  main_is_running s' = main_is_running s /\
  main_current_player_registering s' = main_current_player_registering s /\
  exists t, trace s' = trace s ++ t /\
            Forall (fun c => is_print c = false /\ is_after c = false) t.

(** What the rest of an iteration and the final cleanup may do: the
    globals of [main.py] are not written, the ledger invariant and a
    complete ledger stay, nothing is scanned or opened. *)
Definition serve_frame (s s' : State) : Prop :=
  main_is_running s' = main_is_running s /\
  main_current_player_registering s' = main_current_player_registering s /\
  (ledger_inv s -> ledger_inv s') /\
  current_player_registering s <= current_player_registering s' /\
  exists t, trace s' = trace s ++ t /\
            Forall (fun c => is_scan c = false) t /\
            (forall m, m ∈ t -> is_final_assignment m = true ->
                       2 < current_player_registering s').

(** No scan and no open after the final slot was written. *)
Definition quiet_once_complete (s : State) : Prop :=
  forall pre m post,
    trace s = pre ++ m :: post -> is_final_assignment m = true ->
    Forall (fun c => is_scan c = false) post /\ 2 < current_player_registering s.

(** * Concrete environments

    [event0] and [event1] are keyboards, [event2] is a mouse; [event0] and
    the mouse also have aliases under [/dev/input/by-id]. *)

Definition keyboard_caps : gmap Z (list Z) :=
  {[ ecodes.EV_KEY := [ecodes.KEY_A; ecodes.KEY_Z; ecodes.KEY_SPACE] ]}.

Definition mouse_caps : gmap Z (list Z) :=
  {[ ecodes.EV_KEY := [272; 273]; 2 := [0; 1] ]}.

Definition desk : OS := {|
  by_id_exists := true;
  by_id_listdir := ["usb-A-event-kbd"; "usb-M-event-mouse"];
  realpath := fun p =>
    if decide (p = "/dev/input/by-id/usb-A-event-kbd") then "/dev/input/event0"
    else if decide (p = "/dev/input/by-id/usb-M-event-mouse") then "/dev/input/event2"
    else p;
  list_devices := ["/dev/input/event0"; "/dev/input/event1"; "/dev/input/event2"];
  open_result := fun p => Some ("dev " +:+ p);
  open_flags := fun _ => 2;
  capabilities := fun p =>
    if decide (p = "/dev/input/event2") then Some mouse_caps else Some keyboard_caps;
  fcntl_fails := fun _ => false;
  close_fails := fun _ => false;
  key_known := fun _ => true
|}.

Definition key_press : InputEvent := mkEvent ecodes.EV_KEY ecodes.KEY_A 1.
Definition key_release : InputEvent := mkEvent ecodes.EV_KEY ecodes.KEY_A 0.
Definition key_repeat : InputEvent := mkEvent ecodes.EV_KEY ecodes.KEY_A 2.

(** An iteration in which the device at [p] delivers [evs] and every other
    device has nothing to read. *)
Definition typing (os : OS) (p : string) (evs : list InputEvent) : Cycle := {|
  cy_os := os;
  cy_select := fun read_fds => Ready read_fds;
  cy_read := fun dev =>
    if decide (path dev = p) then Events evs else ReadRaises BlockingIOError;
  cy_after_fails := false
|}.

(** Player 1 types on [event0]; player 2 releases a key on [event1], then
    types on it; the environment would go on. *)
Definition session : list Cycle :=
  [typing desk "/dev/input/event0" [key_press; key_release; key_press];
   typing desk "/dev/input/event1" [key_release];
   typing desk "/dev/input/event1" [key_press; key_press];
   typing desk "/dev/input/event1" [key_press]].

(** The two device objects that end up in the ledger in [session]. *)
Definition keyboard0 : InputDevice :=
  mkDev 0 "/dev/input/event0" "dev /dev/input/event0".
Definition keyboard1 : InputDevice :=
  mkDev 10 "/dev/input/event1" "dev /dev/input/event1".

(** The same iteration on a display that is gone: [root.after] raises. *)
Definition typing_blind (os : OS) (p : string) (evs : list InputEvent) : Cycle := {|
  cy_os := os;
  cy_select := fun read_fds => Ready read_fds;
  cy_read := fun dev =>
    if decide (path dev = p) then Events evs else ReadRaises BlockingIOError;
  cy_after_fails := true
|}.

Definition blind_session : list Cycle :=
  [typing_blind desk "/dev/input/event0" [key_press];
   typing_blind desk "/dev/input/event1" [key_press];
   typing_blind desk "/dev/input/event1" [key_press]].

(** The state in which the loop of [session] is entered. *)
Definition session_entry : State :=
  set_open_devices []
    (set_trace [CallPrint MsgStarting] (thread_start initial_state)).

(** [event0] can be opened but is gone when its capabilities are queried. *)
Definition vanishing : OS := {|
  by_id_exists := true;
  by_id_listdir := ["usb-A-event-kbd"];
  realpath := realpath desk;
  list_devices := ["/dev/input/event0"; "/dev/input/event1"];
  open_result := open_result desk;
  open_flags := open_flags desk;
  capabilities := fun p =>
    if decide (p = "/dev/input/event0") then None else Some keyboard_caps;
  fcntl_fails := fun _ => false;
  close_fails := fun _ => false;
  key_known := fun _ => true
|}.

(** [fcntl] fails on descriptor 4. *)
Definition bad_fcntl : OS := {|
  by_id_exists := false;
  by_id_listdir := [];
  realpath := realpath desk;
  list_devices := ["/dev/input/event0"; "/dev/input/event1"];
  open_result := open_result desk;
  open_flags := open_flags desk;
  capabilities := fun _ => Some keyboard_caps;
  fcntl_fails := fun fd => fd =? 4;
  close_fails := fun _ => false;
  key_known := fun _ => true
|}.


(** An iteration in which everything fails: [select] raises [ValueError],
    reads raise [OSError], closes raise, [root.after] raises. *)
Definition storm : Cycle := {|
  cy_os := {|
    by_id_exists := false;
    by_id_listdir := [];
    realpath := realpath desk;
    list_devices := ["/dev/input/event0"];
    open_result := open_result desk;
    open_flags := open_flags desk;
    capabilities := fun _ => Some keyboard_caps;
    fcntl_fails := fun _ => false;
    close_fails := fun _ => true;
    key_known := fun _ => true
  |};
  cy_select := fun _ => SelectRaises ValueError;
  cy_read := fun _ => ReadRaises OSError;
  cy_after_fails := true
|}.

(** The thread watching [keyboard0] on descriptor 3. *)
Definition watching : State :=
  set_open_devices [(3, keyboard0)]
    (set_heap [mkHandle 3 2050] (thread_start initial_state)).

(** Player 1 has registered [keyboard0], which is still open. *)
Definition one_registered : State :=
  set_current_player_registering 2
    (set_player_keyboards [(1, keyboard0)]
       (set_heap [mkHandle 3 2050] (thread_start initial_state))).

(** What a scan returns in [one_registered] on [desk]. *)
Definition free_keyboards : PyDict Z InputDevice :=
  [(5, mkDev 3 "/dev/input/event1" "dev /dev/input/event1")].

(** * Further vocabulary *)

(** ** The store *)

(** No two open handles share a descriptor. *)
Definition store_ok (s : State) : Prop :=
  forall i j h h',
    heap s !! i = Some h -> heap s !! j = Some h' ->
    -1 < h_fd h -> h_fd h = h_fd h' -> i = j.

(** Every device recorded by the enumeration is open. *)
Definition all_open (s : State) (d : PyDict string InputDevice) : Prop :=
  forall p dev, (p, dev) ∈ d -> is_open s dev = true.


(** [p] opens and [is_keyboard] accepts it. *)
Definition openable_keyboard (os : OS) (p : string) : Prop :=
  open_result os p <> None /\
  exists c, capabilities os p = Some c /\
            advertises_key_events c /\ exposes_reference_key c.

(** A step that keeps the descriptors of open handles distinct. *)
Definition store_step (s s' : State) : Prop := store_ok s -> store_ok s'.

(** Every object created since the store had [base] objects is closed or
    recorded in [d]. *)
Definition accounted (base : nat) (d : PyDict string InputDevice) (s : State) : Prop :=
  forall o, (base <= o < length (heap s))%nat ->
    handle_open s o = false \/ o ∈ oid <$> dict_values d.

(** The event nodes that the aliases under [/dev/input/by-id] resolve to,
    in listing order. *)
Definition by_id_targets (os : OS) (entries : list string) : list string :=
  filter (fun p => String.prefix "/dev/input/event" p = true)
         ((fun entry => realpath os (path_join by_id_path entry)) <$> entries).

(** The capability query answers for every node that can be opened. *)
Definition classifiable (os : OS) : Prop :=
  forall p, open_result os p <> None -> capabilities os p <> None.

(** A step that creates no object. *)
Definition same_size (s s' : State) : Prop := length (heap s') = length (heap s).

(** ** The run of the thread *)

(** The player ids passed to [root.after(0, update_ui, _)], in call order. *)
Definition scheduled (t : list Call) : list Z :=
  omap (fun c => match c with CallAfter n => Some n | _ => None end) t.

(** One UI update was requested per filled slot. *)
Definition notified (s : State) : Prop :=
  1 <= current_player_registering s /\
  scheduled (trace s) = seqZ 2 (current_player_registering s - 1).

(** The thread's flag is cleared only with a complete ledger. *)
Definition flag_inv (s : State) : Prop :=
  is_running s = false -> 2 < current_player_registering s.

(** What any part of the thread may do to the counter, the flag and the
    requested updates. *)
Definition run_frame (s s' : State) : Prop :=
  current_player_registering s <= current_player_registering s' /\
  (is_running s' = is_running s \/
   (is_running s' = false /\ 2 < current_player_registering s')) /\
  (notified s -> notified s').

(** [m] never raises. *)
Definition total {A} (m : M A) : Prop := forall s, exists a, (m s).1 = Ok a.

(** Only calls accepted by [p] are made. *)
Definition emits (p : Call -> bool) (s s' : State) : Prop :=
  exists t, trace s' = trace s ++ t /\ Forall (fun c => p c = true) t.


(** Every monitored device is open on the descriptor it is monitored
    under. *)
Definition monitored_live (s : State) : Prop :=
  forall fd dev, (fd, dev) ∈ open_devices s ->
    exists h, heap s !! oid dev = Some h /\ h_fd h = fd /\ -1 < fd.

(** The objects below [base] keep their descriptors. *)
Definition old_fds (base : nat) (s s' : State) : Prop :=
  forall o, (o < base)%nat -> h_fd <$> heap s' !! o = h_fd <$> heap s !! o.

(** The devices of [d] were created at [base] or later. *)
Definition fresh_from (base : nat) (d : PyDict string InputDevice) : Prop :=
  forall p dev, (p, dev) ∈ d -> (base <= oid dev)%nat.

(** The monitoring set is sound: open handles have distinct descriptors,
    every monitored device is open on its key, and no key occurs twice. *)
Definition monitoring_ok (s : State) : Prop :=
  store_ok s /\ monitored_live s /\ NoDup (dict_keys (open_devices s)).

(** What waiting and reading may do to a sound monitoring set: drop
    entries, closing their devices. *)
Definition shrinks (s s' : State) : Prop :=
  (monitoring_ok s -> monitoring_ok s') /\
  (forall fd dev, (fd, dev) ∈ open_devices s' -> (fd, dev) ∈ open_devices s) /\
  (forall d, is_open s d = false -> is_open s' d = false).

(** ** [main.py]: the two windows *)

(** The module globals [roots] and [message_labels]: a slot holds [None]
    or a window, respectively the text of a label. *)
Record Screen := mkScreen {
  roots : list (option nat);
  message_labels : list (option string)
}.

Definition nl : string := String (Ascii.ascii_of_nat 10) EmptyString.

Definition prompt_1 : string :=
  "Player 1: Press any key on your keyboard to register it.".
Definition prompt_2 : string :=
  "Player 2: Press any key on your keyboard to register it.".

(** Lines 41-45 *)
Definition completion_message (ledger : PyDict Z InputDevice) : string :=
  String.concat ""
    (("All keyboards registered!" +:+ nl) ::
     ((fun entry : Z * InputDevice =>
         "Player " +:+ pretty entry.1 +:+ ": " +:+ name entry.2 +:+
         " (" +:+ path entry.2 +:+ ")" +:+ nl) <$> ledger))
  +:+ nl +:+ "Complete. You can close this window.".

(** Lines 35-45 *)
Definition update_ui_message (player_id : Z) (ledger : PyDict Z InputDevice)
    : string :=
  if (player_id =? 1) && negb (dict_mem ledger 1) then prompt_1
  else if (player_id =? 2) && negb (dict_mem ledger 2) then prompt_2
  else completion_message ledger.

(** [for i in range(2)], lines 29-47; [None] is the [IndexError] of a list
    that is too short. *)
Fixpoint update_ui_windows (indices : list nat) (player_id : Z)
    (ledger : PyDict Z InputDevice) (ui : Screen) : option Screen :=
  match indices with
  | [] => Some ui
  | i :: rest =>
      match roots ui !! i with
      | None => None
      | Some root =>
          match message_labels ui !! i with
          | None => None
          | Some message_label =>
              match root, message_label with
              | Some _, Some _ =>
                  update_ui_windows rest player_id ledger
                    (mkScreen (roots ui)
                       (<[i := Some (update_ui_message player_id ledger)]>
                          (message_labels ui)))
              | _, _ => update_ui_windows rest player_id ledger ui
              end
          end
      end
  end.

Definition update_ui (player_id : Z) (ledger : PyDict Z InputDevice)
    (ui : Screen) : option Screen :=
  update_ui_windows (seq 0 2) player_id ledger ui.

(** * Properties *)

(** ** Dictionaries *)

Section PyDictFacts.
Context {K V : Type} `{EqDecision K}.
Implicit Types (d : PyDict K V) (k : K) (v : V).

Lemma dict_get_None d k : dict_get d k = None <-> k ∉ dict_keys d.
Proof.
  induction d as [|[k' v'] d IH]; simpl.
  - split; [intros _; apply not_elem_of_nil | done].
  - rewrite not_elem_of_cons. destruct (decide (k = k')) as [Heq|Hne].
    + split; [done | by intros [? _]].
    + rewrite IH. tauto.
Qed.

Lemma dict_get_Some_elem d k v : dict_get d k = Some v -> (k, v) ∈ d.
Proof.
  induction d as [|[k' v'] d IH]; simpl; [done|].
  destruct (decide (k = k')) as [->|]; intros E.
  - injection E as ->. apply elem_of_cons; auto.
  - apply elem_of_cons; auto.
Qed.

Lemma dict_mem_true d k : dict_mem d k = true <-> k ∈ dict_keys d.
Proof.
  unfold dict_mem. destruct (dict_get d k) eqn:E.
  - split; [intros _|done]. destruct (decide (k ∈ dict_keys d)); [done|].
    apply dict_get_None in n. congruence.
  - apply dict_get_None in E. split; [done | intros; contradiction].
Qed.

Lemma dict_set_fresh d k v : k ∉ dict_keys d -> dict_set d k v = d ++ [(k, v)].
Proof.
  induction d as [|[k' v'] d IH]; simpl; [done|].
  rewrite not_elem_of_cons. intros [Hne Hni].
  destruct (decide (k = k')); [done|]. by rewrite IH.
Qed.

Lemma dict_set_keys d k v :
  forall k0, k0 ∈ dict_keys (dict_set d k v) <-> k0 = k \/ k0 ∈ dict_keys d.
Proof.
  induction d as [|[k' v'] d IH]; simpl; intros k0.
  - rewrite list_elem_of_singleton, elem_of_nil. tauto.
  - destruct (decide (k = k')) as [->|Hne]; simpl; rewrite !elem_of_cons.
    + tauto.
    + rewrite IH. tauto.
Qed.

Lemma dict_set_keys_NoDup d k v :
  NoDup (dict_keys d) -> NoDup (dict_keys (dict_set d k v)).
Proof.
  induction d as [|[k' v'] d IH]; simpl.
  - intros _. apply NoDup_singleton.
  - rewrite NoDup_cons. intros [Hni Hnd].
    destruct (decide (k = k')) as [->|Hne]; simpl; apply NoDup_cons.
    + auto.
    + split; [|auto]. rewrite dict_set_keys. intros [?|?]; [congruence|done].
Qed.

(** Every entry of an updated dictionary is the new one or an old one. *)
Lemma dict_set_values d k v :
  forall v0, v0 ∈ dict_values (dict_set d k v) -> v0 = v \/ v0 ∈ dict_values d.
Proof.
  induction d as [|[k' v'] d IH]; simpl; intros v0.
  - rewrite list_elem_of_singleton. auto.
  - destruct (decide (k = k')) as [->|Hne]; simpl; rewrite !elem_of_cons.
    + tauto.
    + intros [->|Hin]; [auto|]. apply IH in Hin. tauto.
Qed.
Lemma dict_set_elem_of d k v k0 v0 :
  (k0, v0) ∈ dict_set d k v -> (k0, v0) = (k, v) \/ (k0, v0) ∈ d.
Proof.
  induction d as [|[k' v'] d IH]; simpl.
  - rewrite list_elem_of_singleton. auto.
  - destruct (decide (k = k')) as [->|Hne]; rewrite !elem_of_cons.
    + tauto.
    + intros [Heq|Hin]; [auto|]. apply IH in Hin. tauto.
Qed.

Lemma dict_set_NoDup_fmap {B} (f : V -> B) d k v :
  NoDup (f <$> dict_values d) -> f v ∉ f <$> dict_values d ->
  NoDup (f <$> dict_values (dict_set d k v)).
Proof.
  induction d as [|[k' v'] d IH]; simpl.
  - intros _ _. apply NoDup_singleton.
  - rewrite NoDup_cons, not_elem_of_cons. intros [Hni Hnd] [Hne Hfv].
    destruct (decide (k = k')) as [->|Hk]; simpl; apply NoDup_cons.
    + auto.
    + split; [|auto]. intros Hin.
      apply list_elem_of_fmap in Hin as (v0 & Heq & Hin).
      apply dict_set_values in Hin as [->|Hin]; [congruence|].
      apply Hni. rewrite Heq. by apply list_elem_of_fmap_2.
Qed.

Lemma dict_elem_of_values d k v : (k, v) ∈ d -> v ∈ dict_values d.
Proof. intros Hin. apply (list_elem_of_fmap_2 snd) in Hin. exact Hin. Qed.

Lemma dict_elem_of_keys d k v : (k, v) ∈ d -> k ∈ dict_keys d.
Proof. intros Hin. apply (list_elem_of_fmap_2 fst) in Hin. exact Hin. Qed.

End PyDictFacts.

(** ** Relational frames for monadic code *)

Section Preserves.
Context (R : relation State) `{!PreOrder R}.

Lemma preserves_ret {A} (a : A) : preserves R (ret a).
Proof. intros s. simpl. reflexivity. Qed.

Lemma preserves_raise {A} e : preserves R (@raise A e).
Proof. intros s. simpl. reflexivity. Qed.

Lemma preserves_get : preserves R get.
Proof. intros s. simpl. reflexivity. Qed.

Lemma preserves_modify f : (forall s, R s (f s)) -> preserves R (modify f).
Proof. intros Hf s. simpl. apply Hf. Qed.

Lemma preserves_bind {A B} (m : M A) (k : A -> M B) :
  preserves R m -> (forall a, preserves R (k a)) -> preserves R (bind m k).
Proof.
  intros Hm Hk s. unfold bind. specialize (Hm s).
  destruct (m s) as [[a|e] s1]; simpl in *; [|done].
  etransitivity; [exact Hm | apply Hk].
Qed.

Lemma preserves_try_except {A} (m : M A) (h : exn -> M A) :
  preserves R m -> (forall e, preserves R (h e)) -> preserves R (try_except m h).
Proof.
  intros Hm Hh s. unfold try_except. specialize (Hm s).
  destruct (m s) as [[a|e] s1]; simpl in *; [done|].
  etransitivity; [exact Hm | apply Hh].
Qed.
End Preserves.

(** ** The classifier *)

Lemma any_key_spec os dev c codes ks s :
  capabilities os (path dev) = Some c ->
  c !! ecodes.EV_KEY = Some codes ->
  exists b, any_key os dev ks s = (Ok b, s) /\
            (b = true <-> exists k, k ∈ ks /\ k ∈ codes).
Proof.
  intros Hc Hk. induction ks as [|k ks IH]; simpl.
  - exists false. split; [done|]. split; [done|].
    intros (k & Hin & _). by apply elem_of_nil in Hin.
  - unfold bind, dev_capabilities. rewrite Hc, Hk.
    destruct (bool_decide (k ∈ codes)) eqn:E.
    + apply bool_decide_eq_true in E. exists true. split; [done|].
      split; [|done]. intros _. exists k. split; [apply elem_of_cons; auto | done].
    + apply bool_decide_eq_false in E. destruct IH as (b & -> & Hb).
      exists b. split; [done|]. rewrite Hb. split.
      * intros (k' & Hin & Hc'). exists k'. split; [apply elem_of_cons; auto | done].
      * intros (k' & Hin & Hc'). apply elem_of_cons in Hin as [->|Hin]; [done|].
        by exists k'.
Qed.

Lemma is_keyboard_state os dev s : (is_keyboard os dev s).2 = s.
Proof.
  unfold is_keyboard, bind, dev_capabilities.
  destruct (capabilities os (path dev)) as [c|] eqn:Hc; [|done].
  destruct (c !! ecodes.EV_KEY) as [codes|] eqn:Hk; [|done].
  destruct (any_key_spec os dev c codes reference_keys s Hc Hk) as (b & -> & _).
  by destruct b.
Qed.

Lemma is_keyboard_result os dev c s :
  capabilities os (path dev) = Some c ->
  exists b, is_keyboard os dev s = (Ok b, s) /\
            (b = true <-> advertises_key_events c /\ exposes_reference_key c).
Proof.
  intros Hc. unfold is_keyboard, bind, dev_capabilities. rewrite Hc.
  unfold advertises_key_events, exposes_reference_key.
  destruct (c !! ecodes.EV_KEY) as [codes|] eqn:Hk.
  - destruct (any_key_spec os dev c codes reference_keys s Hc Hk) as (b & -> & Hb).
    exists b. split; [by destruct b|]. rewrite Hb. split.
    + intros (k & Hin & Hcode). split; [by eexists|]. by exists codes, k.
    + intros (_ & codes' & k & Heq & Hcode & Hin). injection Heq as <-. by exists k.
  - exists false. split; [done|]. split; [done|].
    intros ([? ?] & _). done.
Qed.

(** C8. [is_keyboard] changes nothing -- whatever the device answers, the
    state after the call is the state before it -- and when the capability
    query answers, it returns [True] exactly when the device advertises
    [EV_KEY] and lists at least one of [KEY_A], [KEY_Z], [KEY_SPACE],
    [KEY_ENTER], [KEY_1] among its key codes. *)
Theorem is_keyboard_pure_predicate os dev c s :
  capabilities os (path dev) = Some c ->
  (forall s0, (is_keyboard os dev s0).2 = s0) /\
  exists b, is_keyboard os dev s = (Ok b, s) /\
            (b = true <-> advertises_key_events c /\ exposes_reference_key c).
Proof.
  intros Hc. split.
  - intros s0. apply is_keyboard_state.
  - by apply is_keyboard_result.
Qed.

Lemma is_keyboard_pure_predicate_witness :
  exists b, is_keyboard desk keyboard0 initial_state = (Ok b, initial_state) /\
            (b = true <->
             advertises_key_events keyboard_caps /\ exposes_reference_key keyboard_caps).
Proof.
  apply (is_keyboard_pure_predicate desk keyboard0 keyboard_caps initial_state).
  reflexivity.
Defined.

(** ** Closing a device *)

Lemma dev_close_spec os dev s :
  let r := dev_close os dev s in
  trace r.2 = trace s ++ [CallClose (oid dev)] /\
  player_keyboards r.2 = player_keyboards s /\
  open_devices r.2 = open_devices s /\
  is_open r.2 dev = false /\
  (forall d, is_open s d = false -> is_open r.2 d = false) /\
  (forall d, oid d <> oid dev -> heap r.2 !! oid d = heap s !! oid d).
Proof.
  unfold dev_close, is_open, handle_open. simpl.
  destruct (heap s !! oid dev) as [h|] eqn:Hh; simpl.
  - destruct (-1 <? h_fd h) eqn:Hfd; simpl.
    + assert (Hlt : (oid dev < length (heap s))%nat)
        by (apply lookup_lt_is_Some; eauto).
      set (hp := <[oid dev := close_handle h]> (heap s)).
      assert (Hgoal :
          match hp !! oid dev with Some h0 => -1 <? h_fd h0 | None => false end = false /\
          (forall d, match heap s !! oid d with Some h0 => -1 <? h_fd h0 | None => false end = false ->
                     match hp !! oid d with Some h0 => -1 <? h_fd h0 | None => false end = false) /\
          (forall d, oid d <> oid dev -> hp !! oid d = heap s !! oid d)).
      { subst hp. split; [|split].
        - by rewrite list_lookup_insert_eq.
        - intros d Hd. destruct (decide (oid d = oid dev)) as [->|Hne].
          + by rewrite list_lookup_insert_eq.
          + by rewrite list_lookup_insert_ne.
        - intros d Hne. by rewrite list_lookup_insert_ne. }
      destruct (close_fails os (oid dev)); simpl;
        (do 3 (split; [done|])); exact Hgoal.
    + rewrite Hh, Hfd. by repeat split.
  - rewrite Hh. by repeat split.
Qed.

Lemma close_all_quiet_spec os devs : forall s,
  exists s', close_all_quiet os devs s = (Ok tt, s') /\
    trace s' = trace s ++ (CallClose ∘ oid <$> devs) /\
    player_keyboards s' = player_keyboards s /\
    open_devices s' = open_devices s /\
    (forall d, d ∈ devs -> is_open s' d = false) /\
    (forall d, is_open s d = false -> is_open s' d = false) /\
    (forall d, oid d ∉ oid <$> devs -> heap s' !! oid d = heap s !! oid d).
Proof.
  induction devs as [|dev devs IH]; intros s; simpl.
  - exists s. rewrite app_nil_r. repeat split; try done.
    intros d Hd. by apply elem_of_nil in Hd.
  - unfold bind, try_except.
    destruct (dev_close_spec os dev s) as (Ht & Hpk & Hod & Hcl & Hmono & Hfr).
    set (s1 := (dev_close os dev s).2) in *.
    assert (Hrun : (let (r, s0) := dev_close os dev s in
                    match r with Ok a => (Ok a, s0) | Raise e => ret tt s0 end)
                   = (Ok tt, s1)).
    { subst s1. by destruct (dev_close os dev s) as [[[]|e] s0]. }
    rewrite Hrun. destruct (IH s1) as (s' & -> & Ht' & Hpk' & Hod' & Hcl' & Hmono' & Hfr').
    exists s'. split; [done|]. split.
    { rewrite Ht', Ht, <- app_assoc. done. }
    split; [congruence|]. split; [congruence|]. split; [|split].
    + intros d Hd. apply elem_of_cons in Hd as [->|Hd]; auto.
    + auto.
    + intros d Hd. apply not_elem_of_cons in Hd as [Hne Hd].
      rewrite Hfr' by done. by apply Hfr.
Qed.

(** ** What the scanner leaves alone *)

#[local] Instance scan_frame_preorder : PreOrder scan_frame.
Proof.
  split.
  - intros s. unfold scan_frame. repeat split; try done.
    exists []. by rewrite app_nil_r.
  - intros s1 s2 s3 (H1 & H2 & H3 & H4 & H5 & H6 & t & Ht & Hf)
                    (H1' & H2' & H3' & H4' & H5' & H6' & t' & Ht' & Hf').
    unfold scan_frame. repeat split; try congruence.
    exists (t ++ t'). split; [by rewrite Ht', Ht, app_assoc|].
    by apply Forall_app.
Qed.

#[local] Instance serve_frame_preorder : PreOrder serve_frame.
Proof.
  split.
  - intros s. unfold serve_frame. do 3 (split; [done|]). split; [lia|].
    exists []. split; [by rewrite app_nil_r|]. split; [done|].
    intros m Hm. by apply elem_of_nil in Hm.
  - intros s1 s2 s3 (H1 & H2 & H3 & H4 & t & Ht & Hf & Hm)
                    (H1' & H2' & H3' & H4' & t' & Ht' & Hf' & Hm').
    unfold serve_frame. split; [congruence|]. split; [congruence|].
    split; [auto|]. split; [lia|].
    exists (t ++ t'). split; [by rewrite Ht', Ht, app_assoc|].
    split; [by apply Forall_app|].
    intros m Hin Hfin. apply elem_of_app in Hin as [Hin|Hin]; [|eauto].
    specialize (Hm m Hin Hfin). lia.
Qed.

Ltac frame_step :=
  lazymatch goal with
  | |- preserves _ (bind _ _) => apply preserves_bind; [try apply _ | | intros ?]
  | |- preserves _ (try_except _ _) => apply preserves_try_except; [try apply _ | | intros ?]
  | |- preserves _ (ret _) => apply preserves_ret; try apply _
  | |- preserves _ (raise _) => apply preserves_raise; try apply _
  | |- preserves _ get => apply preserves_get; try apply _
  | |- preserves _ (if ?b then _ else _) => destruct b
  | |- preserves _ (match ?x with _ => _ end) => destruct x
  end.

Ltac frame := repeat (frame_step; eauto).

(** Primitive operations touch the store and the trace only. *)
Lemma scan_frame_touch s h t :
  Forall (fun c => is_print c = false /\ is_after c = false) t ->
  scan_frame s (set_heap h (set_trace (trace s ++ t) s)).
Proof. intros Ht. unfold scan_frame. simpl. repeat split; try done. by exists t. Qed.

Lemma scan_frame_open os p : preserves scan_frame (InputDevice_open os p).
Proof.
  intros s. unfold InputDevice_open.
  destruct (open_result os p); simpl.
  - apply (scan_frame_touch s _ [CallOpen p]). by repeat constructor.
  - unfold scan_frame. simpl. repeat split; try done.
    exists [CallOpen p]. split; [done|]. by repeat constructor.
Qed.

Lemma scan_frame_close os dev : preserves scan_frame (dev_close os dev).
Proof.
  intros s. unfold dev_close. simpl.
  assert (Hsame : scan_frame s (set_trace (trace s ++ [CallClose (oid dev)]) s)).
  { unfold scan_frame. simpl. repeat split; try done.
    exists [CallClose (oid dev)]. split; [done|]. by repeat constructor. }
  destruct (heap s !! oid dev) as [h|]; [|done].
  destruct (-1 <? h_fd h); [|done].
  destruct (close_fails os (oid dev)); simpl;
    apply (scan_frame_touch s _ [CallClose (oid dev)]); by repeat constructor.
Qed.

Lemma scan_frame_capabilities os dev : preserves scan_frame (dev_capabilities os dev).
Proof.
  intros s. unfold dev_capabilities. destruct (capabilities os (path dev)); reflexivity.
Qed.

Lemma scan_frame_is_keyboard os dev : preserves scan_frame (is_keyboard os dev).
Proof. intros s. rewrite is_keyboard_state. reflexivity. Qed.

Lemma scan_frame_dev_fd dev : preserves scan_frame (dev_fd dev).
Proof. intros s. unfold dev_fd. destruct (heap s !! oid dev); reflexivity. Qed.

Lemma scan_frame_getfl os fd : preserves scan_frame (fcntl_getfl os fd).
Proof.
  intros s. unfold fcntl_getfl. destruct (negb (-1 <? fd)); [reflexivity|].
  destruct (fcntl_fails os fd); [reflexivity|].
  destruct (filter _ _); reflexivity.
Qed.

Lemma scan_frame_setfl os fd v : preserves scan_frame (fcntl_setfl os fd v).
Proof.
  intros s. unfold fcntl_setfl. destruct (negb (-1 <? fd)); [reflexivity|].
  destruct (fcntl_fails os fd); [reflexivity|]. simpl.
  unfold scan_frame. simpl. repeat split; try done.
  exists []. by rewrite app_nil_r.
Qed.

Create HintDb scan discriminated.
#[local] Hint Resolve scan_frame_open scan_frame_close scan_frame_capabilities
  scan_frame_is_keyboard scan_frame_dev_fd scan_frame_getfl scan_frame_setfl : scan.

Lemma scan_frame_candidate os p d : preserves scan_frame (scan_candidate os p d).
Proof. unfold scan_candidate. repeat (frame_step; eauto with scan). Qed.

Lemma scan_frame_by_id os entries : forall d, preserves scan_frame (scan_by_id os entries d).
Proof.
  induction entries as [|e entries IH]; intros d; simpl.
  - frame.
  - repeat (frame_step; eauto using scan_frame_candidate).
Qed.

Lemma scan_frame_fallback os paths : forall d, preserves scan_frame (scan_fallback os paths d).
Proof.
  induction paths as [|p paths IH]; intros d; simpl.
  - frame.
  - repeat (frame_step; eauto using scan_frame_candidate).
Qed.

Lemma scan_frame_filter os assigned items :
  forall acc, preserves scan_frame (filter_unassigned os assigned items acc).
Proof.
  induction items as [|[p dev] items IH]; intros acc; simpl.
  - frame.
  - repeat (frame_step; eauto with scan).
Qed.

Lemma scan_frame_enumerate os : preserves scan_frame (enumerate_keyboards os).
Proof.
  unfold enumerate_keyboards.
  repeat (frame_step; eauto using scan_frame_by_id, scan_frame_fallback).
Qed.

Lemma scan_frame_discover os : preserves scan_frame (discover_available_keyboards os).
Proof.
  unfold discover_available_keyboards.
  repeat (frame_step; eauto using scan_frame_enumerate, scan_frame_filter).
  intros s. unfold emit, modify. simpl. unfold scan_frame. simpl.
  repeat split; try done. exists [CallDiscover]. split; [done|]. by repeat constructor.
Qed.

(** ** What the scanner returns *)

Lemma first_free_ge used fuel : forall n, n <= first_free used fuel n.
Proof.
  induction fuel as [|fuel IH]; intros n; simpl; [lia|].
  destruct (bool_decide (n ∈ used)); [|lia].
  specialize (IH (n + 1)). lia.
Qed.

Lemma alloc_fd_ge h : 3 <= alloc_fd h.
Proof. apply first_free_ge. Qed.

Lemma is_keyboard_cases os dev s :
  (exists c b, capabilities os (path dev) = Some c /\
               is_keyboard os dev s = (Ok b, s) /\
               (b = true <-> advertises_key_events c /\ exposes_reference_key c)) \/
  (exists e, is_keyboard os dev s = (Raise e, s)).
Proof.
  destruct (capabilities os (path dev)) as [c|] eqn:Hc.
  - left. destruct (is_keyboard_result os dev c s Hc) as (b & Hrun & Hb).
    by exists c, b.
  - right. exists OSError. unfold is_keyboard, bind, dev_capabilities. by rewrite Hc.
Qed.

Lemma dev_close_length os dev s :
  length (heap (dev_close os dev s).2) = length (heap s).
Proof.
  unfold dev_close. simpl. destruct (heap s !! oid dev) as [h|]; [|done].
  destruct (-1 <? h_fd h); [|done].
  destruct (close_fails os (oid dev)); simpl; by rewrite length_insert.
Qed.

Lemma enumerated_grow os d s s' :
  enumerated os d s -> (length (heap s) <= length (heap s'))%nat ->
  enumerated os d s'.
Proof.
  intros (Hk & Ho & Hall) Hlen. split; [done|]. split; [done|].
  intros p dev Hin. destruct (Hall p dev Hin) as (? & ? & ?).
  split; [done|]. split; [done|]. lia.
Qed.

Lemma scan_candidate_enumerated os p d s :
  enumerated os d s ->
  exists d', scan_candidate os p d s = (Ok d', (scan_candidate os p d s).2) /\
             enumerated os d' (scan_candidate os p d s).2.
Proof.
  intros Henum. unfold scan_candidate, try_except, bind, InputDevice_open.
  destruct (open_result os p) as [nm|]; simpl.
  2:{ exists d. split; [done|]. by apply (enumerated_grow os d s). }
  set (s1 := set_heap _ _).
  set (dev := mkDev (length (heap s)) p nm).
  assert (Hlen1 : length (heap s1) = S (length (heap s))).
  { subst s1. simpl. rewrite length_app. simpl. lia. }
  destruct (is_keyboard_cases os dev s1) as [(c & b & Hc & -> & Hb) | (e & ->)].
  2:{ simpl. exists d. split; [done|]. apply (enumerated_grow os d s); [done|lia]. }
  destruct b; simpl.
  - (* a keyboard: recorded under its path *)
    exists (dict_set d p dev). split; [done|].
    destruct Henum as (Hk & Ho & Hall).
    split; [by apply dict_set_keys_NoDup|]. split.
    + apply dict_set_NoDup_fmap; [done|]. simpl. intros Hin.
      apply list_elem_of_fmap in Hin as (dev' & Heq & Hin).
      apply list_elem_of_fmap in Hin as ([p' dev''] & -> & Hin). simpl in Heq.
      destruct (Hall p' dev'' Hin) as (_ & _ & Hlt). lia.
    + intros p' dev' Hin. apply dict_set_elem_of in Hin as [[= -> ->] | Hin].
      * split; [done|]. split; [|rewrite Hlen1; simpl; lia].
        exists c. split; [done|]. by apply Hb.
      * destruct (Hall p' dev' Hin) as (? & ? & ?).
        split; [done|]. split; [done|]. lia.
  - (* not a keyboard: closed *)
    pose proof (dev_close_length os dev s1) as Hlen2.
    exists d.
    destruct (dev_close os dev s1) as [[[]|e] s2]; simpl in *;
      (split; [done|]); apply (enumerated_grow os d s); try done; lia.
Qed.

Lemma scan_by_id_enumerated os entries : forall d s,
  enumerated os d s ->
  exists d', scan_by_id os entries d s = (Ok d', (scan_by_id os entries d s).2) /\
             enumerated os d' (scan_by_id os entries d s).2.
Proof.
  induction entries as [|entry entries IH]; intros d s Henum; simpl.
  - by exists d.
  - destruct (String.prefix _ _); [|by apply IH].
    unfold bind.
    destruct (scan_candidate_enumerated os (realpath os (path_join by_id_path entry)) d s Henum)
      as (d1 & Hrun & Henum1).
    rewrite Hrun. by apply IH.
Qed.

Lemma scan_fallback_enumerated os paths : forall d s,
  enumerated os d s ->
  exists d', scan_fallback os paths d s = (Ok d', (scan_fallback os paths d s).2) /\
             enumerated os d' (scan_fallback os paths d s).2.
Proof.
  induction paths as [|p paths IH]; intros d s Henum; simpl.
  - by exists d.
  - destruct (negb (dict_mem d p)); [|by apply IH].
    unfold bind.
    destruct (scan_candidate_enumerated os p d s Henum) as (d1 & Hrun & Henum1).
    rewrite Hrun. by apply IH.
Qed.

Lemma enumerated_empty os s : enumerated os [] s.
Proof.
  split; [apply NoDup_nil_2|]. split; [apply NoDup_nil_2|].
  intros p dev Hin. by apply elem_of_nil in Hin.
Qed.

(** The enumeration never raises. *)
Lemma enumerate_keyboards_enumerated os s :
  exists d, enumerate_keyboards os s = (Ok d, (enumerate_keyboards os s).2) /\
            enumerated os d (enumerate_keyboards os s).2.
Proof.
  unfold enumerate_keyboards, bind.
  destruct (by_id_exists os).
  - destruct (scan_by_id_enumerated os (by_id_listdir os) [] s (enumerated_empty os s))
      as (d1 & Hrun & Henum1).
    rewrite Hrun. by apply scan_fallback_enumerated.
  - simpl. apply scan_fallback_enumerated, enumerated_empty.
Qed.

Lemma dev_fd_Ok dev s fd s' :
  dev_fd dev s = (Ok fd, s') ->
  s' = s /\ exists h, heap s !! oid dev = Some h /\ h_fd h = fd.
Proof.
  unfold dev_fd. destruct (heap s !! oid dev) as [h|]; [|done].
  intros [= <- <-]. eauto.
Qed.

Lemma fcntl_getfl_Ok os fd s flag s' :
  fcntl_getfl os fd s = (Ok flag, s') -> s' = s /\ -1 < fd.
Proof.
  unfold fcntl_getfl. destruct (-1 <? fd) eqn:E; [|done]. apply Z.ltb_lt in E.
  simpl. destruct (fcntl_fails os fd); [done|].
  destruct (filter _ _); [done|].
  by intros [= _ <-].
Qed.

Lemma fcntl_setfl_Ok os fd v s s' :
  fcntl_setfl os fd v s = (Ok tt, s') ->
  s' = set_heap (setfl fd v <$> heap s) s.
Proof.
  unfold fcntl_setfl. destruct (-1 <? fd); [|done]. simpl.
  destruct (fcntl_fails os fd); [done|]. by intros [= <-].
Qed.

Lemma nonblocking_lor flag : Z.testbit (Z.lor flag O_NONBLOCK) 11 = true.
Proof. rewrite Z.lor_spec. unfold O_NONBLOCK. simpl. apply orb_true_r. Qed.

Lemma ready_handle_setfl s fd dev fd0 v :
  Z.testbit v 11 = true ->
  ready_handle s fd dev ->
  ready_handle (set_heap (setfl fd0 v <$> heap s) s) fd dev.
Proof.
  intros Hv (h & Hh & Hfd & Hpos & Hnb). unfold ready_handle. simpl.
  rewrite list_lookup_fmap, Hh. simpl. eexists. split; [done|].
  unfold setfl, nonblocking in *. destruct (decide (h_fd h = fd0)); simpl; auto.
Qed.

Lemma is_open_setfl s fd0 v d :
  is_open (set_heap (setfl fd0 v <$> heap s) s) d = is_open s d.
Proof.
  unfold is_open, handle_open. simpl. rewrite list_lookup_fmap.
  destruct (heap s !! oid d) as [h|]; simpl; [|done].
  unfold setfl. by destruct (decide (h_fd h = fd0)).
Qed.

Lemma filter_unassigned_spec os assigned items : forall acc s avail s',
  filter_unassigned os assigned items acc s = (Ok avail, s') ->
  NoDup (oid <$> items.*2) ->
  (forall fd dev, (fd, dev) ∈ acc ->
     ready_handle s fd dev /\ oid dev ∉ oid <$> items.*2) ->
  (forall fd dev, (fd, dev) ∈ avail ->
     ready_handle s' fd dev /\
     ((fd, dev) ∈ acc \/ exists p, (p, dev) ∈ items /\ p ∉ assigned)) /\
  (forall p dev, (p, dev) ∈ items -> p ∈ assigned -> is_open s' dev = false) /\
  (forall d, is_open s d = false -> is_open s' d = false).
Proof.
  induction items as [|[p dev] items IH]; intros acc s avail s' Hrun Hnd Hacc.
  - simpl in Hrun. injection Hrun as <- <-.
    split; [|split; [|done]].
    + intros fd dev Hin. split; [by apply Hacc|by left].
    + intros p dev Hin. by apply elem_of_nil in Hin.
  - simpl in Hrun, Hnd. apply NoDup_cons in Hnd as [Hfresh Hnd].
    destruct (bool_decide (p ∉ assigned)) eqn:Hp.
    + (* kept: switched to non-blocking mode *)
      apply bool_decide_eq_true in Hp. unfold bind in Hrun.
      destruct (dev_fd dev s) as [[fd|e] s0] eqn:Hfd; [|done].
      apply dev_fd_Ok in Hfd as (-> & h & Hh & Hhfd).
      destruct (fcntl_getfl os fd s) as [[flag|e] s0] eqn:Hget; [|done].
      apply fcntl_getfl_Ok in Hget as (-> & Hpos).
      destruct (fcntl_setfl os fd (Z.lor flag O_NONBLOCK) s) as [[[]|e] s1] eqn:Hset;
        [|done].
      apply fcntl_setfl_Ok in Hset as ->.
      set (s1 := set_heap _ s) in *.
      destruct (IH (dict_set acc fd dev) s1 avail s' Hrun Hnd) as (Hav & Hcl & Hmono).
      { intros fd' dev' Hin. apply dict_set_elem_of in Hin as [[= -> ->] | Hin].
        - split; [|done]. unfold ready_handle. subst s1. simpl.
          rewrite list_lookup_fmap, Hh. simpl. eexists. split; [done|].
          unfold setfl, nonblocking. rewrite decide_True by done. simpl.
          split; [done|]. split; [done|]. apply nonblocking_lor.
        - destruct (Hacc fd' dev' Hin) as (Hready & Hni).
          split; [by apply ready_handle_setfl; [apply nonblocking_lor|]|].
          simpl in Hni. by apply not_elem_of_cons in Hni as [_ ?]. }
      split; [|split].
      * intros fd' dev' Hin. destruct (Hav fd' dev' Hin) as (Hready & Hfrom).
        split; [done|]. destruct Hfrom as [Hin' | (p' & Hin' & Hp')].
        -- apply dict_set_elem_of in Hin' as [[= -> ->] | Hin']; [|by left].
           right. exists p. split; [apply elem_of_cons; by left | done].
        -- right. exists p'. split; [apply elem_of_cons; by right | done].
      * intros p' dev' Hin Hp'. apply elem_of_cons in Hin as [[= -> ->] | Hin];
          [done | by apply (Hcl p' dev')].
      * intros d Hd. apply Hmono. subst s1. by rewrite is_open_setfl.
    + (* already assigned: closed *)
      apply bool_decide_eq_false in Hp. unfold bind in Hrun.
      destruct (dev_close_spec os dev s) as (_ & _ & _ & Hclosed & Hmono0 & Hframe).
      destruct (dev_close os dev s) as [[[]|e] s1] eqn:Hclose; [|done].
      simpl in Hclosed, Hmono0, Hframe.
      destruct (IH acc s1 avail s' Hrun Hnd) as (Hav & Hcl & Hmono).
      { intros fd' dev' Hin. destruct (Hacc fd' dev' Hin) as ((h & Hh & Hrest) & Hni).
        simpl in Hni. apply not_elem_of_cons in Hni as [Hne Hni].
        split; [|done]. exists h. by rewrite Hframe. }
      split; [|split].
      * intros fd' dev' Hin. destruct (Hav fd' dev' Hin) as (Hready & Hfrom).
        split; [done|]. destruct Hfrom as [Hin' | (p' & Hin' & Hp')]; [by left|].
        right. exists p'. split; [apply elem_of_cons; by right | done].
      * intros p' dev' Hin Hp'. apply elem_of_cons in Hin as [[= -> ->] | Hin];
          [by apply Hmono | by apply (Hcl p' dev')].
      * auto.
Qed.

Lemma filter_unassigned_paths os assigned items : forall acc s avail s',
  filter_unassigned os assigned items acc s = (Ok avail, s') ->
  NoDup (path <$> items.*2) ->
  NoDup (path <$> dict_values acc) ->
  (forall dev, dev ∈ dict_values acc -> path dev ∉ path <$> items.*2) ->
  NoDup (path <$> dict_values avail).
Proof.
  induction items as [|[p dev] items IH]; intros acc s avail s' Hrun Hnd Hacc Hdisj.
  - simpl in Hrun. by injection Hrun as <- <-.
  - simpl in Hrun, Hnd. apply NoDup_cons in Hnd as [Hfresh Hnd].
    assert (Hdisj' : forall dev', dev' ∈ dict_values acc -> path dev' ∉ path <$> items.*2).
    { intros dev' Hin. specialize (Hdisj dev' Hin). simpl in Hdisj.
      by apply not_elem_of_cons in Hdisj as [_ ?]. }
    destruct (bool_decide (p ∉ assigned)).
    + unfold bind in Hrun.
      destruct (dev_fd dev s) as [[fd|e] s0]; [|done].
      destruct (fcntl_getfl os fd s0) as [[flag|e] s1]; [|done].
      destruct (fcntl_setfl os fd (Z.lor flag O_NONBLOCK) s1) as [[[]|e] s2]; [|done].
      apply (IH _ _ _ _ Hrun Hnd).
      * apply dict_set_NoDup_fmap; [done|]. intros Hin.
        apply list_elem_of_fmap in Hin as (dev' & Heq & Hin).
        specialize (Hdisj dev' Hin). simpl in Hdisj.
        apply not_elem_of_cons in Hdisj as [Hne _]. congruence.
      * intros dev' Hin. apply dict_set_values in Hin as [->|Hin]; auto.
    + unfold bind in Hrun.
      destruct (dev_close os dev s) as [[[]|e] s1]; [|done].
      by apply (IH _ _ _ _ Hrun Hnd).
Qed.

Lemma enumerated_paths_are_keys os d s :
  enumerated os d s -> path <$> d.*2 = d.*1.
Proof.
  intros (_ & _ & Hall).
  induction d as [|[p dev] d IH]; simpl; [done|].
  destruct (Hall p dev) as (-> & _); [apply elem_of_cons; by left|].
  f_equal. apply IH. intros p' dev' Hin. apply Hall, elem_of_cons. by right.
Qed.

(** C7. When [discover_available_keyboards] returns a mapping, every entry
    [fd -> dev] of it is a device that [is_keyboard] accepted, whose path is
    not the path of any device in [player_keyboards], and whose object is
    open on [fd] with [O_NONBLOCK] set; no two entries have the same path;
    and every enumerated device whose path is assigned has been closed and
    is not in the mapping. *)
Theorem scanner_postcondition os s avail s' :
  discover_available_keyboards os s = (Ok avail, s') ->
  (forall fd dev, (fd, dev) ∈ avail ->
     keyboard_like os dev /\ (path dev ∉ assigned_paths_of s) /\
     ready_handle s' fd dev) /\
  NoDup (path <$> dict_values avail) /\
  exists by_id_devices s1,
    enumerate_keyboards os (set_trace (trace s ++ [CallDiscover]) s)
      = (Ok by_id_devices, s1) /\
    forall p dev, (p, dev) ∈ by_id_devices -> path dev ∈ assigned_paths_of s ->
      is_open s' dev = false /\ dev ∉ dict_values avail.
Proof.
  unfold discover_available_keyboards, bind, emit, modify, get. simpl.
  set (s0 := set_trace (trace s ++ [CallDiscover]) s).
  destruct (enumerate_keyboards_enumerated os s0) as (d & Hrun & Henum).
  pose proof (scan_frame_enumerate os s0) as (Hpk & _).
  rewrite Hrun. set (s1 := (enumerate_keyboards os s0).2) in *.
  assert (Hassigned : assigned_paths_of s1 = assigned_paths_of s).
  { unfold assigned_paths_of. by rewrite Hpk. }
  rewrite Hassigned. intros Hfilter.
  pose proof Henum as (Hkeys & Hoids & Hall).
  destruct (filter_unassigned_spec os (assigned_paths_of s) d [] s1 avail s' Hfilter)
    as (Hav & Hcl & _).
  { done. }
  { intros fd dev Hin. by apply elem_of_nil in Hin. }
  assert (Hfrom : forall fd dev, (fd, dev) ∈ avail ->
            keyboard_like os dev /\ path dev ∉ assigned_paths_of s).
  { intros fd dev Hin. destruct (Hav fd dev Hin) as (_ & [Hnil | (p & Hin' & Hp)]).
    - by apply elem_of_nil in Hnil.
    - destruct (Hall p dev Hin') as (-> & Hkb & _). done. }
  split; [|split].
  - intros fd dev Hin. destruct (Hfrom fd dev Hin) as (? & ?).
    destruct (Hav fd dev Hin) as (? & _). done.
  - apply (filter_unassigned_paths os (assigned_paths_of s) d [] s1 avail s' Hfilter).
    + rewrite (enumerated_paths_are_keys os d s1 Henum). done.
    + apply NoDup_nil_2.
    + intros dev Hin. by apply elem_of_nil in Hin.
  - exists d, s1. split; [done|]. intros p dev Hin Hp.
    destruct (Hall p dev Hin) as (Hpath & _). split.
    + apply (Hcl p dev Hin). by rewrite <- Hpath.
    + intros Hin'. apply list_elem_of_fmap in Hin' as ([fd dev'] & -> & Hin').
      simpl in Hp. by destruct (Hfrom fd dev' Hin') as (_ & ?).
Qed.

Lemma scanner_postcondition_witness :
  NoDup (path <$> dict_values free_keyboards).
Proof.
  refine (proj1 (proj2 (scanner_postcondition desk one_registered free_keyboards
           (discover_available_keyboards desk one_registered).2 _))).
  vm_compute. reflexivity.
Defined.
(** ** Handle leaks of the scanner *)

(** The capability query of [event0] raises inside [is_keyboard], once in
    each enumeration loop; the exception is swallowed and the function
    returns normally, having called [close()] on neither handle. *)
Lemma scanner_leaks_when_classification_raises :
  let r := discover_available_keyboards vanishing (thread_start initial_state) in
  r.1 = Ok [(5, mkDev 2 "/dev/input/event1" "dev /dev/input/event1")] /\
  heap r.2 = [mkHandle 3 2; mkHandle 4 2; mkHandle 5 2050] /\
  trace r.2 = [CallDiscover; CallOpen "/dev/input/event0";
               CallOpen "/dev/input/event0"; CallOpen "/dev/input/event1"] /\
  leaked (thread_start initial_state)
         [(5, mkDev 2 "/dev/input/event1" "dev /dev/input/event1")] r.2 = [0; 1]%nat.
Proof. vm_compute. done. Qed.

(** [fcntl] raises in the last loop: the exception leaves the function,
    nothing is returned and both recorded handles are open. *)
Lemma scanner_leaks_when_fcntl_raises :
  let r := discover_available_keyboards bad_fcntl (thread_start initial_state) in
  r.1 = Raise OSError /\
  heap r.2 = [mkHandle 3 2050; mkHandle 4 2] /\
  trace r.2 = [CallDiscover; CallOpen "/dev/input/event0"; CallOpen "/dev/input/event1"] /\
  leaked (thread_start initial_state) [] r.2 = [0; 1]%nat.
Proof. vm_compute. done. Qed.


(** ** The arbitration step *)

Lemma process_event_cases c dev ev s :
  let r := process_event c dev ev s in
  heap r.2 = heap s /\ open_devices r.2 = open_devices s /\
  main_is_running r.2 = main_is_running s /\
  main_current_player_registering r.2 = main_current_player_registering s /\
  ((assigns c dev ev s /\
    player_keyboards r.2 = dict_set (player_keyboards s) (current_player_registering s) dev /\
    current_player_registering r.2 = current_player_registering s + 1 /\
    exists t,
      trace r.2 = trace s ++
        CallPrint (MsgKeyPress dev) ::
        CallPrint (MsgAssigned (current_player_registering s) dev) ::
        CallAfter (current_player_registering s + 1) :: t /\
      Forall (fun c => is_scan c = false /\ is_final_assignment c = false) t)
   \/
   (~ assigns c dev ev s /\
    player_keyboards r.2 = player_keyboards s /\
    current_player_registering r.2 = current_player_registering s /\
    is_running r.2 = is_running s /\
    r.1 <> Ok true /\
    (trace r.2 = trace s \/ trace r.2 = trace s ++ [CallPrint (MsgKeyPress dev)]))).
Proof.
  unfold assigns, process_event, categorize, key_event, bind. simpl.
  destruct (ev_type ev =? ecodes.EV_KEY) eqn:Et.
  2:{ apply Z.eqb_neq in Et. simpl. do 4 (split; [done|]). right.
      repeat split; try done; [tauto | by left]. }
  apply Z.eqb_eq in Et.
  destruct (key_known (cy_os c) (ev_code ev)) eqn:Ek.
  2:{ simpl. do 4 (split; [done|]). right.
      repeat split; try done; [intros (_ & ? & _); congruence | by left]. }
  simpl.
  destruct (ev_value ev =? 0) eqn:E0.
  { apply Z.eqb_eq in E0. simpl. do 4 (split; [done|]). right.
    repeat split; try done; [lia | by left]. }
  destruct (ev_value ev =? 2) eqn:E2.
  { apply Z.eqb_eq in E2. simpl. do 4 (split; [done|]). right.
    repeat split; try done; [lia | by left]. }
  destruct (ev_value ev =? 1) eqn:E1.
  2:{ apply Z.eqb_neq in E1. simpl. do 4 (split; [done|]). right.
      repeat split; try done; [tauto | by left]. }
  apply Z.eqb_eq in E1. simpl.
  unfold bind, print, root_after, emit, modify, get. simpl.
  destruct (current_player_registering s <=? 2) eqn:Ec; simpl.
  2:{ apply Z.leb_gt in Ec. do 4 (split; [done|]). right.
      repeat split; try done; [lia | by right]. }
  apply Z.leb_le in Ec.
  destruct (bool_decide (path dev ∉ assigned_paths_of (set_trace (trace s ++ [CallPrint (MsgKeyPress dev)]) s))) eqn:Ep.
  2:{ apply bool_decide_eq_false in Ep. simpl. do 4 (split; [done|]). right.
      repeat split; try done; [tauto | by right]. }
  apply bool_decide_eq_true in Ep. unfold bind. simpl.
  destruct (cy_after_fails c); simpl.
  { do 4 (split; [done|]). left. repeat split; try done.
    exists []. rewrite <- !app_assoc. by split. }
  destruct (2 <? current_player_registering s + 1) eqn:En; simpl;
    do 4 (split; [done|]); left; repeat split; try done.
  - exists [CallPrint MsgBothRegistered]. rewrite <- !app_assoc.
    split; [done|]. by repeat constructor.
  - exists []. rewrite <- !app_assoc. by split.
Qed.

(** A batch in which no event is a key press leaves the state alone. *)
Lemma process_events_no_press c dev evs s :
  Forall (fun ev => ev_value ev = 0 \/ ev_value ev = 2) evs ->
  (process_events c dev evs s).2 = s.
Proof.
  induction 1 as [|ev evs Hev _ IH]; simpl; [done|].
  unfold bind, process_event, categorize, key_event, bind. simpl.
  destruct (ev_type ev =? ecodes.EV_KEY); [|exact IH].
  destruct (key_known (cy_os c) (ev_code ev)); [|done].
  destruct Hev as [-> | ->]; simpl; exact IH.
Qed.

(** C5. An event whose value is 0 (release) or 2 (auto-repeat) is
    processed without any transition -- the whole state, in particular the
    ledger, the slot counter and the running flag, is as before, and the
    event loop is not left by [break]; and whenever processing some event
    changes the ledger, the counter or the flag, that event is a key event
    with value 1. *)
Theorem release_and_repeat_are_inert c dev ev s :
  ev_value ev = 0 \/ ev_value ev = 2 ->
  (process_event c dev ev s).2 = s /\
  (process_event c dev ev s).1 <> Ok true /\
  (forall c' dev' ev' s',
     player_keyboards (process_event c' dev' ev' s').2 <> player_keyboards s' \/
     current_player_registering (process_event c' dev' ev' s').2
       <> current_player_registering s' \/
     is_running (process_event c' dev' ev' s').2 <> is_running s' ->
     ev_type ev' = ecodes.EV_KEY /\ ev_value ev' = 1).
Proof.
  intros Hv.
  assert (Hrun : (process_event c dev ev s).2 = s /\
                 (process_event c dev ev s).1 <> Ok true).
  { unfold process_event, categorize, key_event, bind. simpl.
    destruct (ev_type ev =? ecodes.EV_KEY); [|done].
    destruct (key_known (cy_os c) (ev_code ev)); [|done].
    destruct Hv as [-> | ->]; done. }
  destruct Hrun as [Hst Hres]. split; [done|]. split; [done|].
  intros c' dev' ev' s' Hch.
  destruct (process_event_cases c' dev' ev' s') as (_ & _ & _ & _ & [Ha | Hn]).
  - destruct Ha as ((Ht & _ & Hv' & _) & _). done.
  - destruct Hn as (_ & Hpk & Hc & Hr & _). tauto.
Qed.

Lemma release_and_repeat_are_inert_witness :
  (process_event (typing desk "/dev/input/event1" [key_release])
     keyboard1 key_release (thread_start initial_state)).2
    = thread_start initial_state /\
  (process_event (typing desk "/dev/input/event1" [key_repeat])
     keyboard1 key_repeat (thread_start initial_state)).2
    = thread_start initial_state.
Proof.
  split.
  - apply (release_and_repeat_are_inert _ keyboard1 key_release). left. reflexivity.
  - apply (release_and_repeat_are_inert _ keyboard1 key_repeat). right. reflexivity.
Defined.

(** ** The ledger *)

Lemma ledger_inv_slot_free s :
  ledger_inv s -> current_player_registering s ∉ dict_keys (player_keyboards s).
Proof.
  intros (Hc & Hk & _). rewrite Hk, elem_of_seqZ. lia.
Qed.

Lemma ledger_inv_full s :
  ledger_inv s -> dict_keys (player_keyboards s) = [1; 2] ->
  current_player_registering s = 3.
Proof.
  intros (Hc & Hk & _) Hfull. rewrite Hfull in Hk.
  assert (Hl : length [1; 2] = length (seqZ 1 (current_player_registering s - 1)))
    by (by rewrite Hk).
  rewrite length_seqZ in Hl. simpl in Hl. lia.
Qed.

Lemma arrive_step c s dev ev :
  ledger_inv s ->
  let s' := arrive c s (dev, ev) in
  ledger_inv s' /\
  ((player_keyboards s' = player_keyboards s /\
    current_player_registering s' = current_player_registering s) \/
   (player_keyboards s' = player_keyboards s ++ [(current_player_registering s, dev)] /\
    current_player_registering s' = current_player_registering s + 1 /\
    assigns c dev ev s)).
Proof.
  intros Hinv. unfold arrive. simpl.
  destruct (process_event_cases c dev ev s) as (_ & _ & _ & _ & [Ha | Hn]).
  - destruct Ha as (Has & Hpk & Hc & _).
    pose proof (ledger_inv_slot_free s Hinv) as Hfree.
    rewrite (dict_set_fresh _ _ _ Hfree) in Hpk.
    split; [|right; done].
    destruct Hinv as (Hr & Hk & Hnd). destruct Has as (_ & _ & _ & Hle & Hni).
    unfold ledger_inv, assigned_paths_of, dict_keys, dict_values in *.
    rewrite Hpk, Hc, !fmap_app. simpl. repeat split; try lia.
    + rewrite Hk.
      replace (current_player_registering s + 1 - 1)
        with ((current_player_registering s - 1) + 1) by lia.
      rewrite seqZ_app by lia. f_equal.
      rewrite seqZ_cons, seqZ_nil by lia. f_equal. lia.
    + apply NoDup_app. repeat split; [done| |apply NoDup_singleton].
      intros x Hx Hx'. apply list_elem_of_singleton in Hx'. by subst.
  - destruct Hn as (_ & Hpk & Hc & _).
    split; [|left; done].
    unfold ledger_inv, assigned_paths_of in *. by rewrite Hpk, Hc.
Qed.

Lemma arrivals_inv c evs : forall s,
  ledger_inv s ->
  ledger_inv (arrivals c evs s) /\
  exists added,
    player_keyboards (arrivals c evs s) = player_keyboards s ++ added /\
    sublist added.*2 evs.*1.
Proof.
  induction evs as [|[dev ev] evs IH]; intros s Hinv.
  - split; [done|]. exists []. by rewrite app_nil_r.
  - unfold arrivals. simpl. fold (arrivals c evs (arrive c s (dev, ev))).
    destruct (arrive_step c s dev ev Hinv) as (Hinv1 & Hstep).
    destruct (IH _ Hinv1) as (Hinv' & added & Hpk & Hsub).
    split; [done|].
    destruct Hstep as [(Hsame & _) | (Happ & _)].
    + exists added. rewrite Hpk, Hsame. split; [done|]. by apply sublist_cons.
    + exists ((current_player_registering s, dev) :: added).
      rewrite Hpk, Happ, <- app_assoc. split; [done|]. simpl. by apply sublist_skip.
Qed.

Lemma arrivals_frozen c evs : forall s,
  2 < current_player_registering s ->
  player_keyboards (arrivals c evs s) = player_keyboards s.
Proof.
  induction evs as [|[dev ev] evs IH]; intros s Hc; [done|].
  unfold arrivals. simpl. fold (arrivals c evs (arrive c s (dev, ev))).
  destruct (process_event_cases c dev ev s) as (_ & _ & _ & _ & [Ha | Hn]).
  - destruct Ha as ((_ & _ & _ & Hle & _) & _). lia.
  - destruct Hn as (_ & Hpk & Hcpr & _). unfold arrive. simpl.
    rewrite IH by lia. done.
Qed.

Lemma arrivals_assigned_device c evs : forall s,
  Forall (fun de => path de.1 ∈ assigned_paths_of s) evs ->
  player_keyboards (arrivals c evs s) = player_keyboards s.
Proof.
  induction evs as [|[dev ev] evs IH]; intros s Hall; [done|].
  unfold arrivals. simpl. fold (arrivals c evs (arrive c s (dev, ev))).
  apply Forall_cons in Hall as [Hin Hall]. simpl in Hin.
  destruct (process_event_cases c dev ev s) as (_ & _ & _ & _ & [Ha | Hn]).
  - destruct Ha as ((_ & _ & _ & _ & Hni) & _). contradiction.
  - destruct Hn as (_ & Hpk & _). unfold arrive. simpl.
    rewrite IH; [done|]. unfold assigned_paths_of in *. by rewrite Hpk.
Qed.

Lemma initial_ledger_inv : ledger_inv (thread_start initial_state).
Proof.
  unfold ledger_inv. simpl. repeat split; try lia. apply NoDup_nil_2.
Qed.

(** ** What the serving phase leaves alone *)

Lemma serve_frame_quiet s s' t :
  main_is_running s' = main_is_running s ->
  main_current_player_registering s' = main_current_player_registering s ->
  player_keyboards s' = player_keyboards s ->
  current_player_registering s' = current_player_registering s ->
  trace s' = trace s ++ t ->
  Forall (fun c => is_scan c = false /\ is_final_assignment c = false) t ->
  serve_frame s s'.
Proof.
  intros H1 H2 Hpk Hc Ht Hall. unfold serve_frame.
  split; [done|]. split; [done|]. split.
  { unfold ledger_inv, assigned_paths_of. by rewrite Hpk, Hc. }
  split; [lia|].
  exists t. split; [done|]. split.
  - eapply Forall_impl; [exact Hall|]. by intros c [? _].
  - intros m Hin Hfin. rewrite Forall_forall in Hall.
    destruct (Hall m Hin) as [_ Hnf]. congruence.
Qed.

Lemma serve_frame_print m :
  is_final_assignment (CallPrint m) = false -> preserves serve_frame (print m).
Proof.
  intros Hm s. apply (serve_frame_quiet _ _ [CallPrint m]); try done.
  by repeat constructor.
Qed.

Lemma serve_frame_close os dev : preserves serve_frame (dev_close os dev).
Proof.
  intros s. unfold dev_close. simpl.
  destruct (heap s !! oid dev) as [h|];
    [destruct (-1 <? h_fd h); [destruct (close_fails os (oid dev))|]|];
    simpl; apply (serve_frame_quiet _ _ [CallClose (oid dev)]); try done;
    by repeat constructor.
Qed.

Lemma serve_frame_set_open_devices f :
  preserves serve_frame (modify (fun s => set_open_devices (f s) s)).
Proof.
  intros s. apply (serve_frame_quiet _ _ []); try done. simpl. by rewrite app_nil_r.
Qed.

Lemma serve_frame_process_event c dev ev :
  preserves serve_frame (process_event c dev ev).
Proof.
  intros s. unfold serve_frame.
  destruct (process_event_cases c dev ev s) as (_ & _ & Hm1 & Hm2 & Hcase).
  split; [done|]. split; [done|]. split.
  { intros Hinv. by destruct (arrive_step c s dev ev Hinv) as [? _]. }
  destruct Hcase as [(Has & _ & Hc & t & Ht & Hall) | (_ & _ & Hc & _ & _ & Ht)].
  - split; [lia|].
    eexists. split; [exact Ht|]. split.
    + repeat (apply Forall_cons; split; [done|]).
      eapply Forall_impl; [exact Hall|]. by intros ? [? _].
    + intros m Hin Hfin. rewrite !elem_of_cons in Hin.
      destruct Hin as [-> | [-> | [-> | Hin]]]; simpl in Hfin; try done.
      * apply Z.eqb_eq in Hfin. lia.
      * rewrite Forall_forall in Hall. destruct (Hall m Hin). congruence.
  - split; [lia|].
    destruct Ht as [Ht | Ht].
    + exists []. rewrite app_nil_r. split; [done|]. split; [done|].
      intros m Hin. by apply elem_of_nil in Hin.
    + eexists. split; [exact Ht|]. split; [by repeat constructor|].
      intros m Hin Hfin. apply list_elem_of_singleton in Hin. by subst.
Qed.

Create HintDb serve discriminated.
#[local] Hint Resolve serve_frame_close serve_frame_set_open_devices
  serve_frame_process_event : serve.
#[local] Hint Extern 1 (preserves serve_frame (print _)) =>
  (apply serve_frame_print; reflexivity) : serve.
#[local] Hint Extern 1 (preserves serve_frame (modify (set_open_devices ?d))) =>
  (apply (serve_frame_set_open_devices (fun _ => d))) : serve.

Ltac serve := repeat (frame_step; eauto with serve).

Lemma serve_frame_close_all_quiet os devs :
  preserves serve_frame (close_all_quiet os devs).
Proof. induction devs as [|dev devs IH]; simpl; serve. Qed.

Lemma serve_frame_close_stale os fds : preserves serve_frame (close_stale os fds).
Proof. induction fds as [|fd fds IH]; simpl; serve. Qed.

Lemma serve_frame_process_events c dev evs :
  preserves serve_frame (process_events c dev evs).
Proof. induction evs as [|ev evs IH]; simpl; serve. Qed.

#[local] Hint Resolve serve_frame_close_all_quiet serve_frame_close_stale
  serve_frame_process_events : serve.

Lemma serve_frame_process_fd c fd : preserves serve_frame (process_fd c fd).
Proof. unfold process_fd. serve. Qed.

#[local] Hint Resolve serve_frame_process_fd : serve.

Lemma serve_frame_process_ready c rlist : preserves serve_frame (process_ready c rlist).
Proof. induction rlist as [|fd rlist IH]; simpl; serve. Qed.

Lemma serve_frame_wait_ready c : preserves serve_frame (wait_ready c).
Proof. unfold wait_ready. serve. Qed.

#[local] Hint Resolve serve_frame_process_ready serve_frame_wait_ready : serve.

Lemma serve_frame_watch_devices c newly : preserves serve_frame (watch_devices c newly).
Proof. unfold watch_devices. serve. Qed.

Lemma serve_frame_final_cleanup os : preserves serve_frame (final_cleanup os).
Proof. unfold final_cleanup. serve. Qed.

(** ** Invariants of the monitoring loop *)

Lemma final_assignment_is_print c : is_final_assignment c = true -> is_print c = true.
Proof. destruct c as [| | | |m]; try done. Qed.

Lemma quiet_extend s s' :
  quiet_once_complete s -> serve_frame s s' -> quiet_once_complete s'.
Proof.
  intros Hq (_ & _ & _ & Hmono & t & Ht & Hns & Hfin) pre m post Hsplit Hm.
  rewrite Ht in Hsplit. symmetry in Hsplit.
  apply app_eq_inv in Hsplit as [(k & Hpre & Ht') | (k & Hs & Hk)].
  - (* the marker is among the new calls *)
    split.
    + rewrite Ht' in Hns. apply Forall_app in Hns as [_ Hns].
      by apply Forall_cons in Hns as [_ Hns].
    + apply (Hfin m); [|done]. rewrite Ht'. apply elem_of_app. right.
      apply elem_of_cons. by left.
  - destruct k as [|m' k]; simpl in Hk.
    + (* the marker is the first new call *)
      split.
      * rewrite <- Hk in Hns. by apply Forall_cons in Hns as [_ Hns].
      * apply (Hfin m); [|done]. rewrite <- Hk. apply elem_of_cons. by left.
    + (* the marker is an old call *)
      injection Hk as <- Hpost.
      destruct (Hq pre m k Hs Hm) as [Hold Hfull].
      split; [|lia]. rewrite Hpost. by apply Forall_app.
Qed.

Lemma quiet_scan s s' :
  current_player_registering s <= 2 -> quiet_once_complete s -> scan_frame s s' ->
  quiet_once_complete s'.
Proof.
  intros Hopen Hq (_ & _ & _ & _ & _ & _ & t & Ht & Hnp) pre m post Hsplit Hm.
  exfalso.
  assert (Hin : m ∈ trace s ++ t).
  { rewrite <- Ht, Hsplit. apply elem_of_app. right. apply elem_of_cons. by left. }
  apply elem_of_app in Hin as [Hin | Hin].
  - apply list_elem_of_split in Hin as (l1 & l2 & Hs).
    destruct (Hq l1 m l2 Hs Hm) as [_ Hfalse]. lia.
  - rewrite Forall_forall in Hnp. destruct (Hnp m Hin) as [Hp _].
    apply final_assignment_is_print in Hm. congruence.
Qed.

(** What holds at the head of every iteration. *)
Lemma loop_body_inv c s :
  current_player_registering s <= 2 -> ledger_inv s -> quiet_once_complete s ->
  let s' := (loop_body c s).2 in
  ledger_inv s' /\ quiet_once_complete s' /\
  main_is_running s' = main_is_running s /\
  main_current_player_registering s' = main_current_player_registering s.
Proof.
  intros Hopen Hinv Hq. simpl. unfold loop_body, bind.
  pose proof (scan_frame_discover (cy_os c) s) as Hscan.
  destruct (discover_available_keyboards (cy_os c) s) as [[newly|e] s1]; simpl in *.
  - pose proof (serve_frame_watch_devices c newly s1) as Hserve.
    pose proof (quiet_scan s s1 Hopen Hq Hscan) as Hq1.
    pose proof (quiet_extend s1 _ Hq1 Hserve) as Hq2.
    destruct Hscan as (Hpk & Hc & _ & _ & Hm1 & Hm2 & _).
    destruct Hserve as (Hm1' & Hm2' & Hinv' & _).
    split; [|split; [done|split; congruence]].
    apply Hinv'. unfold ledger_inv, assigned_paths_of in *. by rewrite Hpk, Hc.
  - pose proof (quiet_scan s s1 Hopen Hq Hscan) as Hq1.
    destruct Hscan as (Hpk & Hc & _ & _ & Hm1 & Hm2 & _).
    split; [|split; [done|split; congruence]].
    unfold ledger_inv, assigned_paths_of in *. by rewrite Hpk, Hc.
Qed.

Lemma monitor_loop_inv cycles : forall s,
  ledger_inv s -> quiet_once_complete s ->
  let s' := (monitor_loop cycles s).2 in
  ledger_inv s' /\ quiet_once_complete s' /\
  main_is_running s' = main_is_running s /\
  main_current_player_registering s' = main_current_player_registering s.
Proof.
  induction cycles as [|c cycles IH]; intros s Hinv Hq; simpl.
  - destruct (is_running s); simpl; [|done].
    destruct (2 <? current_player_registering s); done.
  - destruct (is_running s) eqn:Hrun; simpl; [|done].
    destruct (2 <? current_player_registering s) eqn:Hc; [done|].
    apply Z.ltb_ge in Hc.
    destruct (loop_body_inv c s Hc Hinv Hq) as (Hinv1 & Hq1 & Hm1 & Hm2).
    destruct (loop_body c s) as [[[]|e] s1]; simpl in *; [|done].
    destruct (IH s1 Hinv1 Hq1) as (? & ? & ? & ?).
    split; [done|]. split; [done|]. split; congruence.
Qed.

Lemma thread_inv cycles final_os s :
  ledger_inv s -> quiet_once_complete s ->
  let s' := (monitor_keyboards_thread cycles final_os s).2 in
  ledger_inv s' /\ quiet_once_complete s' /\
  main_is_running s' = main_is_running s /\
  main_current_player_registering s' = main_current_player_registering s.
Proof.
  intros Hinv Hq. simpl. unfold monitor_keyboards_thread.
  set (s0 := set_open_devices [] (set_trace (trace s ++ [CallPrint MsgStarting]) s)).
  assert (Hs0 : serve_frame s s0).
  { apply (serve_frame_quiet _ _ [CallPrint MsgStarting]); try done.
    by repeat constructor. }
  assert (Hinv0 : ledger_inv s0) by (by destruct Hs0 as (_ & _ & H & _); apply H).
  pose proof (quiet_extend s s0 Hq Hs0) as Hq0.
  destruct (monitor_loop_inv cycles s0 Hinv0 Hq0) as (Hinv1 & Hq1 & Hm1 & Hm2).
  unfold bind, print, emit, modify. simpl. fold s0.
  destruct (monitor_loop cycles s0) as [[[|]|e] s1]; simpl in *; try done.
  pose proof (serve_frame_final_cleanup final_os s1) as Hclean.
  pose proof (quiet_extend s1 _ Hq1 Hclean) as Hq2.
  destruct Hclean as (Hm1' & Hm2' & Hinv' & _).
  destruct (final_cleanup final_os s1) as [[[]|e] s2]; simpl in *;
    (split; [auto|]); (split; [done|]); split; congruence.
Qed.

Lemma initial_quiet : quiet_once_complete (thread_start initial_state).
Proof. intros pre m post Hsplit. simpl in Hsplit. by destruct pre. Qed.

(** Thread level: in every run started by [start()], the ledger invariant
    holds in the last state described. *)
Lemma start_keeps_ledger_inv cycles final_os :
  ledger_inv (start cycles final_os).2.
Proof.
  by destruct (thread_inv cycles final_os _ initial_ledger_inv initial_quiet) as [? _].
Qed.

(** C2. From a state that satisfies the ledger invariant -- such as the
    initial one -- and for every sequence of events processed in arrival
    order: the invariant holds afterwards (slots [1 .. k] filled in that
    order, no path in two slots); the ledger only grows at its end, by
    devices taken in arrival order, so no filled slot is rewritten; when
    both slots are filled nothing is written; and events of devices that
    are already assigned leave the ledger as it is.  The invariant also
    holds in the last state of every run of the thread started by
    [start()]. *)
Theorem ledger_invariants c evs s :
  ledger_inv s ->
  ledger_inv (arrivals c evs s) /\
  (exists added,
     player_keyboards (arrivals c evs s) = player_keyboards s ++ added /\
     sublist added.*2 evs.*1) /\
  (dict_keys (player_keyboards s) = [1; 2] ->
   player_keyboards (arrivals c evs s) = player_keyboards s) /\
  (Forall (fun de => path de.1 ∈ assigned_paths_of s) evs ->
   player_keyboards (arrivals c evs s) = player_keyboards s) /\
  (forall cycles final_os, ledger_inv (start cycles final_os).2).
Proof.
  intros Hinv. destruct (arrivals_inv c evs s Hinv) as (Hinv' & Hadd).
  split; [done|]. split; [done|]. split; [|split].
  - intros Hfull. apply arrivals_frozen.
    rewrite (ledger_inv_full s Hinv Hfull). lia.
  - apply arrivals_assigned_device.
  - apply start_keeps_ledger_inv.
Qed.

Lemma ledger_invariants_witness :
  ledger_inv
    (arrivals (typing desk "/dev/input/event0" [])
              [(keyboard0, key_press); (keyboard0, key_press);
               (keyboard1, key_release); (keyboard1, key_press);
               (keyboard0, key_press)]
              (thread_start initial_state)).
Proof.
  apply (ledger_invariants _ _ (thread_start initial_state)).
  unfold ledger_inv. simpl. repeat split; try lia. apply NoDup_nil_2.
Defined.

(** C6. In every run of the thread started by [start()], no call of
    [discover_available_keyboards] and no [InputDevice(...)] follows the
    write of the final slot. *)
Theorem no_scan_once_complete cycles final_os pre m post :
  trace (start cycles final_os).2 = pre ++ m :: post ->
  is_final_assignment m = true ->
  Forall (fun c => is_scan c = false) post.
Proof.
  intros Hsplit Hm.
  destruct (thread_inv cycles final_os _ initial_ledger_inv initial_quiet)
    as (_ & Hq & _).
  by destruct (Hq pre m post Hsplit Hm) as [? _].
Qed.

Lemma no_scan_once_complete_witness :
  Forall (fun c => is_scan c = false) (drop 33 (trace (start session desk).2)).
Proof.
  apply (no_scan_once_complete session desk
           (take 32 (trace (start session desk).2))
           (CallPrint (MsgAssigned 2 keyboard1))).
  - vm_compute. reflexivity.
  - reflexivity.
Defined.

(** When [root.after] raises, line 180 is not reached and the thread's flag
    stays [True]; the loop is then left by the [break] of line 103, again
    before any scan. *)
Lemma loop_left_by_break_when_after_raises :
  let r := start blind_session desk in
  r.1 = Ok Exited /\ is_running r.2 = true /\ current_player_registering r.2 = 3 /\
  length (filter (fun c => is_discover c = true) (trace r.2)) = 2%nat.
Proof. vm_compute. done. Qed.

(** ** The running flag *)

(** The thread never writes the module global of [main.py]; the periodic
    check of the foreground loop therefore reschedules itself for ever. *)
Lemma foreground_never_sees_stop cycles final_os :
  check_game_status_and_exit (start cycles final_os).2 = Reschedule.
Proof.
  destruct (thread_inv cycles final_os _ initial_ledger_inv initial_quiet)
    as (_ & _ & Hm & _).
  unfold check_game_status_and_exit, start. by rewrite Hm.
Qed.

(** C1 (the code departs from it). In the session with two keyboards the
    thread fills slot 2 and sets its own [is_running] to [False]; the
    global [is_running] of [main.py], which [check_game_status_and_exit]
    reads, is still [True], so the check does not quit. *)
Theorem running_flag_is_a_copy :
  let s := (start session desk).2 in
  dict_keys (player_keyboards s) = [1; 2] /\
  is_running s = false /\
  main_is_running s = true /\
  check_game_status_and_exit s = Reschedule.
Proof. vm_compute. done. Qed.

(** ** The final cleanup *)

Lemma final_cleanup_spec os s :
  exists s',
    final_cleanup os s = (Ok tt, s') /\
    trace s' = trace s ++ CallPrint MsgFinished ::
                 (CallClose ∘ oid <$> dict_values (open_devices s)) ++
                 (CallClose ∘ oid <$> dict_values (player_keyboards s)) /\
    open_devices s' = open_devices s /\
    player_keyboards s' = player_keyboards s /\
    forall dev,
      dev ∈ dict_values (open_devices s) ++ dict_values (player_keyboards s) ->
      is_open s' dev = false.
Proof.
  unfold final_cleanup, bind, print, emit, modify, get. simpl.
  set (s0 := set_trace (trace s ++ [CallPrint MsgFinished]) s).
  destruct (close_all_quiet_spec os (dict_values (open_devices s)) s0)
    as (s1 & -> & Ht1 & Hpk1 & Hod1 & Hcl1 & Hmono1 & _).
  destruct (close_all_quiet_spec os (dict_values (player_keyboards s1)) s1)
    as (s2 & -> & Ht2 & Hpk2 & Hod2 & Hcl2 & Hmono2 & _).
  exists s2. split; [done|]. split.
  { rewrite Ht2, Ht1, Hpk1. simpl. by rewrite <- !app_assoc. }
  split; [by rewrite Hod2, Hod1|]. split; [by rewrite Hpk2, Hpk1|].
  intros dev Hin. apply elem_of_app in Hin as [Hin|Hin].
  - apply Hmono2, Hcl1, Hin.
  - apply Hcl2. by rewrite Hpk1.
Qed.


(** C4, as the code has it. Whenever the thread leaves its loop, the
    last thing it does is to call [close()] on every device of
    [open_devices] and then on every device of [player_keyboards]; no
    device of the working set and no device of the ledger is open when the
    thread function returns. *)
Theorem exit_closes_working_set_and_ledger cycles final_os s s' :
  monitor_keyboards_thread cycles final_os s = (Ok Exited, s') ->
  (exists t, trace s' = t ++ CallPrint MsgFinished ::
               (CallClose ∘ oid <$> dict_values (open_devices s')) ++
               (CallClose ∘ oid <$> dict_values (player_keyboards s'))) /\
  (forall dev, dev ∈ dict_values (open_devices s') -> is_open s' dev = false) /\
  (forall dev, dev ∈ dict_values (player_keyboards s') -> is_open s' dev = false).
Proof.
  unfold monitor_keyboards_thread, bind, print, emit, modify. simpl.
  destruct (monitor_loop cycles _) as [[[|]|e] s1]; [|done|done].
  destruct (final_cleanup_spec final_os s1) as (s2 & -> & Ht & Hod & Hpk & Hcl).
  simpl. intros [= <-]. rewrite Hod, Hpk. split; [by eexists|].
  split; intros dev Hin; apply Hcl, elem_of_app; auto.
Qed.

Lemma exit_closes_working_set_and_ledger_witness :
  is_open (start session desk).2 keyboard0 = false /\
  is_open (start session desk).2 keyboard1 = false.
Proof.
  assert (Hrun : monitor_keyboards_thread session desk (thread_start initial_state)
                 = (Ok Exited, (start session desk).2))
    by (vm_compute; reflexivity).
  destruct (exit_closes_working_set_and_ledger session desk _ _ Hrun) as (_ & _ & Hpk).
  split; apply Hpk; vm_compute; repeat constructor.
Defined.

(** C4, as the spec has it, fails. In the session with two keyboards,
    [keyboard1] is in the ledger and open when the loop is left, and closed
    when the thread function returns: the cleanup called [close()] on it,
    once for the working set and once more for the ledger. *)
Lemma ledger_device_closed_on_exit :
  exists s1 s',
    monitor_loop session session_entry = (Ok Exited, s1) /\
    dict_values (player_keyboards s1) = [keyboard0; keyboard1] /\
    is_open s1 keyboard1 = true /\
    start session desk = (Ok Exited, s') /\
    dict_values (player_keyboards s') = [keyboard0; keyboard1] /\
    is_open s' keyboard1 = false /\
    drop 35 (trace s') =
      [CallPrint MsgFinished; CallClose 10; CallClose 0; CallClose 10].
Proof. do 2 eexists. vm_compute. repeat split; reflexivity. Qed.

(** ** Diagnostics *)








(** * Further properties *)

(** ** More on dictionaries *)

Section PyDictMore.
Context {K V : Type} `{EqDecision K}.
Implicit Types (d : PyDict K V) (k : K) (v : V).

Lemma dict_set_in d k v : (k, v) ∈ dict_set d k v.
Proof.
  induction d as [|[k' v'] d IH]; simpl.
  - by apply list_elem_of_singleton.
  - destruct (decide (k = k')); apply elem_of_cons; auto.
Qed.

Lemma dict_set_keeps d k v k0 v0 :
  (k0, v0) ∈ d -> k0 <> k -> (k0, v0) ∈ dict_set d k v.
Proof.
  induction d as [|[k' v'] d IH]; simpl; intros Hin Hne.
  - by apply elem_of_nil in Hin.
  - apply elem_of_cons in Hin as [[= -> ->]|Hin].
    + destruct (decide (k = k')); [congruence|]. apply elem_of_cons. by left.
    + destruct (decide (k = k')); apply elem_of_cons; right; auto.
Qed.

Lemma dict_get_set_eq d k v : dict_get (dict_set d k v) k = Some v.
Proof.
  induction d as [|[k' v'] d IH]; simpl.
  - by rewrite decide_True.
  - destruct (decide (k = k')) as [->|Hne]; simpl.
    + by rewrite decide_True.
    + by rewrite decide_False.
Qed.

Lemma dict_get_set_ne d k v k0 :
  k0 <> k -> dict_get (dict_set d k v) k0 = dict_get d k0.
Proof.
  intros Hne. induction d as [|[k' v'] d IH]; simpl.
  - by rewrite decide_False.
  - destruct (decide (k = k')) as [->|Hk]; simpl.
    + by rewrite !decide_False.
    + destruct (decide (k0 = k')); [done|]. exact IH.
Qed.

Lemma dict_get_del_ne d k k0 :
  k0 <> k -> dict_get (dict_del d k) k0 = dict_get d k0.
Proof.
  intros Hne. induction d as [|[k' v'] d IH]; simpl; [done|].
  destruct (decide (k = k')) as [->|Hk]; simpl.
  - by rewrite decide_False.
  - destruct (decide (k0 = k')); [done|]. exact IH.
Qed.

Lemma dict_get_del_eq d k :
  NoDup (dict_keys d) -> dict_get (dict_del d k) k = None.
Proof.
  induction d as [|[k' v'] d IH]; simpl; [done|].
  rewrite NoDup_cons. intros [Hni Hnd].
  destruct (decide (k = k')) as [->|Hk]; simpl.
  - by apply dict_get_None.
  - rewrite decide_False by done. by apply IH.
Qed.

Lemma dict_del_keys d k k0 :
  k0 ∈ dict_keys (dict_del d k) -> k0 ∈ dict_keys d.
Proof.
  induction d as [|[k' v'] d IH]; simpl; [done|].
  destruct (decide (k = k')) as [->|Hk]; simpl; rewrite !elem_of_cons; auto.
  intros [->|Hin]; auto.
Qed.

Lemma dict_del_keys_NoDup d k :
  NoDup (dict_keys d) -> NoDup (dict_keys (dict_del d k)).
Proof.
  induction d as [|[k' v'] d IH]; simpl; [done|].
  rewrite NoDup_cons. intros [Hni Hnd].
  destruct (decide (k = k')) as [->|Hk]; simpl; [done|].
  apply NoDup_cons. split; [|auto]. intros Hin. by apply Hni, (dict_del_keys d k).
Qed.

Lemma dict_get_elem_of d k v :
  NoDup (dict_keys d) -> (k, v) ∈ d -> dict_get d k = Some v.
Proof.
  induction d as [|[k' v'] d IH]; simpl; intros Hnd Hin.
  - by apply elem_of_nil in Hin.
  - apply NoDup_cons in Hnd as [Hni Hnd].
    apply elem_of_cons in Hin as [[= -> ->]|Hin].
    + by rewrite decide_True.
    + destruct (decide (k = k')) as [->|Hne]; [|auto].
      destruct Hni. by apply (dict_elem_of_keys d k' v).
Qed.
End PyDictMore.

Lemma filter_none {A} (P : A -> Prop) `{!forall x, Decision (P x)} (l : list A) :
  (forall x, x ∈ l -> ~ P x) -> filter P l = [].
Proof.
  induction l as [|x l IH]; intros Hall; [done|].
  rewrite filter_cons_False by (apply Hall, elem_of_cons; by left).
  apply IH. intros y Hy. apply Hall, elem_of_cons. by right.
Qed.

(** ** Descriptors *)

Lemma filter_ge_shrinks (used : list Z) (n : Z) :
  n ∈ used ->
  (length (filter (fun x => (n + 1 <= x)%Z) used)
   < length (filter (fun x => (n <= x)%Z) used))%nat.
Proof.
  induction used as [|x used IH]; intros Hin; [by apply elem_of_nil in Hin|].
  assert (Hle : (length (filter (fun x => (n + 1 <= x)%Z) used)
                 <= length (filter (fun x => (n <= x)%Z) used))%nat).
  { clear. induction used as [|y used IH]; [done|].
    rewrite !filter_cons. repeat case_decide; simpl; lia. }
  rewrite !filter_cons. apply elem_of_cons in Hin as [<-|Hin].
  - rewrite decide_False by lia. rewrite decide_True by lia. simpl. lia.
  - specialize (IH Hin). repeat case_decide; simpl; lia.
Qed.

Lemma first_free_fresh (used : list Z) fuel : forall n : Z,
  (length (filter (fun x => (n <= x)%Z) used) <= fuel)%nat ->
  first_free used fuel n ∉ used.
Proof.
  induction fuel as [|fuel IH]; intros n Hlen; simpl.
  - intros Hin. assert (Hf : n ∈ filter (fun x => n <= x) used).
    { apply list_elem_of_filter. split; [lia|done]. }
    destruct (filter (fun x => n <= x) used); [by apply elem_of_nil in Hf|].
    simpl in Hlen. lia.
  - destruct (bool_decide (n ∈ used)) eqn:E.
    + apply bool_decide_eq_true in E. apply IH.
      pose proof (filter_ge_shrinks used n E). lia.
    + by apply bool_decide_eq_false in E.
Qed.

Lemma alloc_fd_fresh h : alloc_fd h ∉ h_fd <$> h.
Proof.
  apply first_free_fresh.
  etransitivity; [apply length_filter|]. by rewrite length_fmap.
Qed.

#[local] Instance store_step_preorder : PreOrder store_step.
Proof.
  split; [intros s H; exact H|]. intros s1 s2 s3 H12 H23 H. by apply H23, H12.
Qed.

Lemma store_ok_heap s s' : heap s' = heap s -> store_ok s -> store_ok s'.
Proof. unfold store_ok. by intros ->. Qed.

Lemma store_step_same_heap {A} (m : M A) :
  (forall s, heap (m s).2 = heap s) -> preserves store_step m.
Proof. intros Hm s Hok. by apply (store_ok_heap s). Qed.

Lemma store_step_open os p : preserves store_step (InputDevice_open os p).
Proof.
  intros s Hok. unfold InputDevice_open.
  destruct (open_result os p) as [nm|]; simpl; [|exact Hok].
  set (hnew := mkHandle (alloc_fd (heap s)) (open_flags os p)).
  assert (Hfresh : forall i h, heap s !! i = Some h -> h_fd h <> alloc_fd (heap s)).
  { intros i h Hi Heq. apply (alloc_fd_fresh (heap s)). rewrite <- Heq.
    apply list_elem_of_fmap_2. by apply list_elem_of_lookup_2 in Hi. }
  intros i j h h' Hi Hj Hpos Heq. simpl in Hi, Hj.
  apply lookup_app_Some in Hi as [Hi | [Hli Hi]];
    apply lookup_app_Some in Hj as [Hj | [Hlj Hj]].
  - by apply (Hok i j h h').
  - apply list_lookup_singleton_Some in Hj as [_ <-]. simpl in Heq.
    by destruct (Hfresh i h Hi).
  - apply list_lookup_singleton_Some in Hi as [_ <-]. simpl in Heq.
    by destruct (Hfresh j h' Hj).
  - apply list_lookup_singleton_Some in Hi as [Hi _].
    apply list_lookup_singleton_Some in Hj as [Hj _]. lia.
Qed.

Lemma store_step_close os dev : preserves store_step (dev_close os dev).
Proof.
  intros s Hok. unfold dev_close. simpl.
  destruct (heap s !! oid dev) as [h0|] eqn:Hh; [|exact Hok].
  destruct (-1 <? h_fd h0); [|exact Hok].
  assert (Hgoal : store_ok (set_heap (<[oid dev := close_handle h0]> (heap s))
                              (set_trace (trace s ++ [CallClose (oid dev)]) s))).
  { intros i j h h' Hi Hj Hpos Heq. simpl in Hi, Hj.
    apply list_lookup_insert_Some in Hi as [(_ & <- & _) | (Hni & Hi)];
      [simpl in Hpos; lia|].
    apply list_lookup_insert_Some in Hj as [(_ & <- & _) | (Hnj & Hj)];
      [simpl in Heq; lia|].
    by apply (Hok i j h h'). }
  by destruct (close_fails os (oid dev)).
Qed.

Lemma store_step_setfl os fd v : preserves store_step (fcntl_setfl os fd v).
Proof.
  intros s Hok. unfold fcntl_setfl.
  destruct (negb (-1 <? fd)); [exact Hok|].
  destruct (fcntl_fails os fd); [exact Hok|]. simpl.
  intros i j h h' Hi Hj Hpos Heq. simpl in Hi, Hj.
  rewrite list_lookup_fmap in Hi, Hj.
  destruct (heap s !! i) as [hi|] eqn:Ei; [|done].
  destruct (heap s !! j) as [hj|] eqn:Ej; [|done].
  simpl in Hi, Hj. injection Hi as <-. injection Hj as <-.
  apply (Hok i j hi hj Ei Ej).
  - unfold setfl in Hpos. by destruct (decide (h_fd hi = fd)).
  - unfold setfl in Heq. by destruct (decide (h_fd hi = fd)), (decide (h_fd hj = fd)).
Qed.

Lemma store_step_is_keyboard os dev : preserves store_step (is_keyboard os dev).
Proof. apply store_step_same_heap. intros s. by rewrite is_keyboard_state. Qed.

Lemma store_step_dev_fd dev : preserves store_step (dev_fd dev).
Proof.
  apply store_step_same_heap. intros s. unfold dev_fd.
  by destruct (heap s !! oid dev).
Qed.

Lemma store_step_getfl os fd : preserves store_step (fcntl_getfl os fd).
Proof.
  apply store_step_same_heap. intros s. unfold fcntl_getfl.
  destruct (negb (-1 <? fd)); [done|]. destruct (fcntl_fails os fd); [done|].
  by destruct (filter _ _).
Qed.

Lemma store_step_emit c : preserves store_step (emit c).
Proof. by apply store_step_same_heap. Qed.

Lemma store_step_modify_frame f :
  (forall s, heap (f s) = heap s) -> preserves store_step (modify f).
Proof. intros Hf. by apply store_step_same_heap. Qed.

Create HintDb store discriminated.
#[local] Hint Resolve store_step_open store_step_close store_step_setfl
  store_step_is_keyboard store_step_dev_fd store_step_getfl store_step_emit : store.
#[local] Hint Extern 1 (preserves store_step (print _)) =>
  (apply store_step_emit) : store.
#[local] Hint Extern 1 (preserves store_step (modify _)) =>
  (apply store_step_modify_frame; intros ?; reflexivity) : store.

Ltac store := repeat (frame_step; eauto with store).

Lemma store_step_candidate os p d : preserves store_step (scan_candidate os p d).
Proof. unfold scan_candidate. store. Qed.

#[local] Hint Resolve store_step_candidate : store.

Lemma store_step_by_id os entries : forall d, preserves store_step (scan_by_id os entries d).
Proof. induction entries as [|e entries IH]; intros d; simpl; store. Qed.

Lemma store_step_fallback os paths : forall d, preserves store_step (scan_fallback os paths d).
Proof. induction paths as [|p paths IH]; intros d; simpl; store. Qed.

Lemma store_step_filter os assigned items :
  forall acc, preserves store_step (filter_unassigned os assigned items acc).
Proof. induction items as [|[p dev] items IH]; intros acc; simpl; store. Qed.

#[local] Hint Resolve store_step_by_id store_step_fallback store_step_filter : store.

Lemma store_step_enumerate os : preserves store_step (enumerate_keyboards os).
Proof. unfold enumerate_keyboards. store. Qed.

#[local] Hint Resolve store_step_enumerate : store.

Lemma store_step_discover os : preserves store_step (discover_available_keyboards os).
Proof. unfold discover_available_keyboards. store. Qed.

(** ** One candidate of the enumeration *)

(** What [scan_candidate] does, by cases on the oracle. *)
Lemma scan_candidate_cases os p d s :
  let r := scan_candidate os p d s in
  (open_result os p = None /\ r.1 = Ok d /\ heap r.2 = heap s /\
   trace r.2 = trace s ++ [CallOpen p]) \/
  (exists nm,
     open_result os p = Some nm /\
     let dev := mkDev (length (heap s)) p nm in
     let hnew := mkHandle (alloc_fd (heap s)) (open_flags os p) in
     (capabilities os p = None /\ r.1 = Ok d /\ heap r.2 = heap s ++ [hnew] /\
      trace r.2 = trace s ++ [CallOpen p]) \/
     (keyboard_like os dev /\ r.1 = Ok (dict_set d p dev) /\
      heap r.2 = heap s ++ [hnew] /\ trace r.2 = trace s ++ [CallOpen p]) \/
     (capabilities os p <> None /\ ~ keyboard_like os dev /\ r.1 = Ok d /\
      heap r.2 = heap s ++ [close_handle hnew] /\
      trace r.2 = trace s ++ [CallOpen p; CallClose (length (heap s))])).
Proof.
  simpl. unfold scan_candidate, try_except, bind, InputDevice_open.
  destruct (open_result os p) as [nm|] eqn:Hopen; simpl; [|by left].
  right. exists nm. split; [done|].
  set (s1 := set_heap _ _).
  set (dev := mkDev (length (heap s)) p nm).
  destruct (is_keyboard_cases os dev s1) as [(c & b & Hc & -> & Hb) | (e & Hraise)].
  2:{ left. rewrite Hraise. simpl. repeat split; try done.
      destruct (capabilities os p) as [c|] eqn:Hc; [|done].
      destruct (is_keyboard_result os dev c s1 Hc) as (b & Hrun & _). congruence. }
  right. destruct b; simpl.
  - left. split; [|done]. exists c. split; [done|]. by apply Hb.
  - right. split; [simpl in Hc; congruence|]. split.
    { intros (c' & Hc' & Hkb). rewrite Hc in Hc'. injection Hc' as <-.
      apply Hb in Hkb. done. }
    unfold dev_close. simpl.
    rewrite lookup_app_r by lia. rewrite Nat.sub_diag. simpl.
    assert (Hfd : (-1 <? alloc_fd (heap s)) = true).
    { apply Z.ltb_lt. pose proof (alloc_fd_ge (heap s)). lia. }
    rewrite Hfd.
    assert (Hins : <[length (heap s) := close_handle (mkHandle (alloc_fd (heap s)) (open_flags os p))]>
                     (heap s ++ [mkHandle (alloc_fd (heap s)) (open_flags os p)])
                   = heap s ++ [close_handle (mkHandle (alloc_fd (heap s)) (open_flags os p))]).
    { rewrite insert_app_r_alt by lia. by rewrite Nat.sub_diag. }
    destruct (close_fails os (length (heap s))); simpl; rewrite Hins;
      repeat split; try done; by rewrite <- app_assoc.
Qed.

Lemma handle_open_app s s' l o :
  heap s' = heap s ++ l -> (o < length (heap s))%nat ->
  handle_open s' o = handle_open s o.
Proof.
  intros Hh Ho. unfold handle_open. by rewrite Hh, lookup_app_l.
Qed.

Lemma all_open_app s s' l d os :
  enumerated os d s -> heap s' = heap s ++ l -> all_open s d -> all_open s' d.
Proof.
  intros (_ & _ & Hall) Hh Hopen p dev Hin. unfold is_open.
  rewrite (handle_open_app s s' l) by (done || by apply (Hall p dev)).
  by apply (Hopen p dev).
Qed.

Lemma accounted_app base d s s' l :
  heap s' = heap s ++ l -> accounted base d s ->
  (forall o, (length (heap s) <= o < length (heap s'))%nat ->
             handle_open s' o = false \/ o ∈ oid <$> dict_values d) ->
  accounted base d s'.
Proof.
  intros Hh Hacc Hnew o Ho.
  destruct (decide (o < length (heap s))%nat) as [Hlt|Hge].
  - rewrite (handle_open_app s s' l) by done. apply Hacc. lia.
  - apply Hnew. lia.
Qed.

Lemma accounted_weaken base d d' s :
  (forall dev, dev ∈ dict_values d -> dev ∈ dict_values d') ->
  accounted base d s -> accounted base d' s.
Proof.
  intros Hsub Hacc o Ho. destruct (Hacc o Ho) as [?|Hin]; [by left|right].
  apply list_elem_of_fmap in Hin as (dev & -> & Hin).
  by apply list_elem_of_fmap_2, Hsub.
Qed.

(** What one candidate does to the enumeration. *)
Lemma scan_candidate_facts os p d s :
  enumerated os d s -> all_open s d ->
  exists d' s',
    scan_candidate os p d s = (Ok d', s') /\
    enumerated os d' s' /\ all_open s' d' /\
    (exists l, heap s' = heap s ++ l) /\
    (forall k, k ∈ dict_keys d -> k ∈ dict_keys d') /\
    (forall k, k ∈ dict_keys d' -> k ∈ dict_keys d \/ k = p) /\
    (openable_keyboard os p -> p ∈ dict_keys d') /\
    (exists t, trace s' = trace s ++ CallOpen p :: t /\
               Forall (fun c => is_scan c = false) t) /\
    (forall base, classifiable os -> p ∉ dict_keys d ->
                  accounted base d s -> accounted base d' s').
Proof.
  intros Henum Hopen.
  destruct (scan_candidate_enumerated os p d s Henum) as (d' & Hrun & Henum').
  exists d', (scan_candidate os p d s).2. split; [done|]. split; [done|].
  assert (Hd' : (scan_candidate os p d s).1 = Ok d') by (by rewrite Hrun).
  clear Hrun. pose proof (scan_candidate_cases os p d s) as Hcases.
  simpl in Hcases. set (s' := (scan_candidate os p d s).2) in *.
  destruct Hcases as [(Hfail & Hres & Hheap & Htrace) | (nm & Hok & Hcases)].
  { (* the open fails *)
    rewrite Hres in Hd'. injection Hd' as <-.
    assert (Hh : heap s' = heap s ++ []) by (by rewrite app_nil_r).
    split; [by apply (all_open_app s s' [] d os)|].
    split; [by exists []|]. split; [done|]. split; [by left|].
    split; [by intros (? & _)|]. split.
    { exists []. by rewrite Htrace. }
    intros base _ _ Hacc. apply (accounted_app base d s s' []); [done|done|].
    intros o Ho. rewrite Hheap in Ho. lia. }
  set (dev := mkDev (length (heap s)) p nm) in *.
  set (hnew := mkHandle (alloc_fd (heap s)) (open_flags os p)) in *.
  destruct Hcases as [(Hnone & Hres & Hheap & Htrace)
                     | [(Hkb & Hres & Hheap & Htrace)
                       | (Hsome & Hnkb & Hres & Hheap & Htrace)]];
    rewrite Hres in Hd'; injection Hd' as <-.
  - (* the classification raises *)
    split; [by apply (all_open_app s s' [hnew] d os)|].
    split; [by eexists|]. split; [done|]. split; [by left|].
    split; [intros (_ & c & Hc & _); congruence|]. split.
    { exists []. by rewrite Htrace. }
    intros base Hclass. destruct (Hclass p); congruence.
  - (* a keyboard *)
    assert (Hnew : is_open s' dev = true).
    { unfold is_open, handle_open. simpl. rewrite Hheap.
      rewrite lookup_app_r by lia. rewrite Nat.sub_diag. simpl.
      apply Z.ltb_lt. pose proof (alloc_fd_ge (heap s)). lia. }
    split.
    { intros p' dev' Hin. apply dict_set_elem_of in Hin as [[= -> ->] | Hin]; [done|].
      by apply (all_open_app s s' [hnew] d os Henum Hheap Hopen p'). }
    split; [by eexists|].
    split; [intros k Hk; apply dict_set_keys; by right|].
    split; [intros k Hk; apply dict_set_keys in Hk as [->|?]; auto|].
    split; [intros _; apply dict_set_keys; by left|]. split.
    { exists []. by rewrite Htrace. }
    intros base _ Hfresh Hacc.
    rewrite (dict_set_fresh d p dev Hfresh).
    apply (accounted_app base _ s s' [hnew]); [done| |].
    + apply (accounted_weaken base d); [|done].
      intros dev' Hin. unfold dict_values. rewrite fmap_app. apply elem_of_app. by left.
    + intros o Ho. rewrite Hheap, length_app in Ho. simpl in Ho.
      right. unfold dict_values. rewrite !fmap_app. apply elem_of_app. right.
      simpl. apply list_elem_of_singleton. lia.
  - (* not a keyboard *)
    split; [by apply (all_open_app s s' [close_handle hnew] d os)|].
    split; [by eexists|]. split; [done|]. split; [by left|].
    split.
    { intros (_ & c & Hc & Hadv & Hexp). destruct Hnkb. by exists c. }
    split.
    { eexists. rewrite Htrace. split; [done|]. by repeat constructor. }
    intros base _ _ Hacc.
    apply (accounted_app base d s s' [close_handle hnew]); [done|done|].
    intros o Ho. rewrite Hheap, length_app in Ho. simpl in Ho. left.
    unfold handle_open. rewrite Hheap, lookup_app_r by lia.
    replace (o - length (heap s))%nat with 0%nat by lia. done.
Qed.

(** ** The two enumeration loops *)

Lemma scan_fallback_facts os paths : forall d s,
  enumerated os d s -> all_open s d ->
  exists d' s',
    scan_fallback os paths d s = (Ok d', s') /\
    enumerated os d' s' /\ all_open s' d' /\
    (exists l, heap s' = heap s ++ l) /\
    (forall k, k ∈ dict_keys d -> k ∈ dict_keys d') /\
    (forall p, p ∈ paths -> openable_keyboard os p -> p ∈ dict_keys d') /\
    (exists t, trace s' = trace s ++ t /\
               forall k, k ∈ dict_keys d -> CallOpen k ∉ t) /\
    (forall base, classifiable os -> accounted base d s -> accounted base d' s').
Proof.
  induction paths as [|p paths IH]; intros d s Henum Hopen; simpl.
  - exists d, s. do 3 (split; [done|]).
    split; [exists []; by rewrite app_nil_r|]. split; [done|].
    split; [intros p Hp; by apply elem_of_nil in Hp|]. split; [|done].
    exists []. rewrite app_nil_r. split; [done|].
    intros k _ Hin. by apply elem_of_nil in Hin.
  - destruct (dict_mem d p) eqn:Hmem; simpl.
    + (* already recorded: skipped *)
      apply dict_mem_true in Hmem.
      destruct (IH d s Henum Hopen)
        as (d' & s' & Hrun & Henum' & Hopen' & Hheap & Hkeys & Hfound & Htrace & Hacc).
      exists d', s'. do 5 (split; [done|]). split; [|done].
      intros q Hq Hkb. apply elem_of_cons in Hq as [->|Hq]; auto.
    + assert (Hfresh : p ∉ dict_keys d).
      { intros Hin. apply dict_mem_true in Hin. congruence. }
      unfold bind.
      destruct (scan_candidate_facts os p d s Henum Hopen)
        as (d1 & s1 & -> & Henum1 & Hopen1 & (l1 & Hheap1) & Hkeys1 & _ & Hfound1
            & (t1 & Ht1 & Hns1) & Hacc1).
      destruct (IH d1 s1 Henum1 Hopen1)
        as (d' & s' & Hrun & Henum' & Hopen' & (l2 & Hheap2) & Hkeys & Hfound
            & (t2 & Ht2 & Hno2) & Hacc).
      exists d', s'. split; [done|]. split; [done|]. split; [done|].
      split; [exists (l1 ++ l2); by rewrite Hheap2, Hheap1, app_assoc|].
      split; [auto|]. split.
      { intros q Hq Hkb. apply elem_of_cons in Hq as [->|Hq]; auto. }
      split.
      { exists (CallOpen p :: t1 ++ t2). split.
        - rewrite Ht2, Ht1. by rewrite <- app_assoc.
        - intros k Hk Hin. apply elem_of_cons in Hin as [[= ->]|Hin]; [done|].
          apply elem_of_app in Hin as [Hin|Hin].
          + rewrite Forall_forall in Hns1. by specialize (Hns1 _ Hin).
          + by apply (Hno2 k (Hkeys1 k Hk)). }
      intros base Hclass Hb. by apply Hacc, Hacc1.
Qed.

Lemma by_id_targets_cons os entry entries :
  by_id_targets os (entry :: entries) =
  if String.prefix "/dev/input/event" (realpath os (path_join by_id_path entry))
  then realpath os (path_join by_id_path entry) :: by_id_targets os entries
  else by_id_targets os entries.
Proof.
  unfold by_id_targets. rewrite fmap_cons, filter_cons.
  destruct (String.prefix _ _); by case_decide.
Qed.

Lemma scan_by_id_facts os entries : forall d s,
  enumerated os d s -> all_open s d ->
  exists d' s',
    scan_by_id os entries d s = (Ok d', s') /\
    enumerated os d' s' /\ all_open s' d' /\
    (exists l, heap s' = heap s ++ l) /\
    (forall base, classifiable os ->
       NoDup (by_id_targets os entries) ->
       (forall k, k ∈ dict_keys d -> k ∉ by_id_targets os entries) ->
       accounted base d s -> accounted base d' s').
Proof.
  induction entries as [|entry entries IH]; intros d s Henum Hopen; simpl.
  - exists d, s. do 3 (split; [done|]).
    split; [exists []; by rewrite app_nil_r|]. done.
  - rewrite by_id_targets_cons.
    set (p := realpath os (path_join by_id_path entry)).
    destruct (String.prefix "/dev/input/event" p) eqn:Hpre; [|by apply IH].
    unfold bind.
    destruct (scan_candidate_facts os p d s Henum Hopen)
      as (d1 & s1 & -> & Henum1 & Hopen1 & (l1 & Hheap1) & _ & Hkeys1 & _ & _ & Hacc1).
    destruct (IH d1 s1 Henum1 Hopen1)
      as (d' & s' & Hrun & Henum' & Hopen' & (l2 & Hheap2) & Hacc).
    exists d', s'. split; [done|]. split; [done|]. split; [done|].
    split; [exists (l1 ++ l2); by rewrite Hheap2, Hheap1, app_assoc|].
    intros base Hclass Hnd Hdisj Hb. apply NoDup_cons in Hnd as [Hp Hnd].
    apply Hacc; [done|done| |].
    + intros k Hk Hin. apply Hkeys1 in Hk as [Hk| ->]; [|done].
      apply (Hdisj k Hk). apply elem_of_cons. by right.
    + apply Hacc1; [done| |done]. intros Hin. apply (Hdisj p Hin).
      apply elem_of_cons. by left.
Qed.

Lemma enumerate_keyboards_facts os s :
  exists d s',
    enumerate_keyboards os s = (Ok d, s') /\
    enumerated os d s' /\ all_open s' d /\
    (exists l, heap s' = heap s ++ l) /\
    (forall p, p ∈ list_devices os -> openable_keyboard os p -> p ∈ dict_keys d) /\
    (classifiable os ->
     (by_id_exists os = true -> NoDup (by_id_targets os (by_id_listdir os))) ->
     accounted (length (heap s)) d s').
Proof.
  assert (Hopen0 : all_open s []).
  { intros p dev Hin. by apply elem_of_nil in Hin. }
  assert (Hacc0 : accounted (length (heap s)) [] s).
  { intros o Ho. lia. }
  unfold enumerate_keyboards, bind.
  destruct (by_id_exists os).
  - destruct (scan_by_id_facts os (by_id_listdir os) [] s (enumerated_empty os s) Hopen0)
      as (d1 & s1 & -> & Henum1 & Hopen1 & (l1 & Hheap1) & Hacc1).
    destruct (scan_fallback_facts os (list_devices os) d1 s1 Henum1 Hopen1)
      as (d' & s' & Hrun & Henum' & Hopen' & (l2 & Hheap2) & _ & Hfound & _ & Hacc).
    exists d', s'. split; [done|]. split; [done|]. split; [done|].
    split; [exists (l1 ++ l2); by rewrite Hheap2, Hheap1, app_assoc|].
    split; [done|]. intros Hclass Hnd. apply Hacc; [done|].
    apply Hacc1; [done|by apply Hnd| |done].
    intros k Hk. by apply elem_of_nil in Hk.
  - simpl.
    destruct (scan_fallback_facts os (list_devices os) [] s (enumerated_empty os s) Hopen0)
      as (d' & s' & Hrun & Henum' & Hopen' & Hheap & _ & Hfound & _ & Hacc).
    exists d', s'. do 5 (split; [done|]). intros Hclass _. by apply Hacc.
Qed.

(** ** The last loop of the scanner *)

Lemma is_open_handle s dev :
  is_open s dev = true <-> exists h, heap s !! oid dev = Some h /\ -1 < h_fd h.
Proof.
  unfold is_open, handle_open. destruct (heap s !! oid dev) as [h|].
  - rewrite Z.ltb_lt. split; [eauto|]. by intros (h' & [= <-] & ?).
  - split; [done|]. by intros (? & ? & _).
Qed.

#[local] Instance same_size_preorder : PreOrder same_size.
Proof.
  split; [by intros s|]. intros s1 s2 s3 H12 H23. unfold same_size in *. congruence.
Qed.

Lemma same_size_close os dev : preserves same_size (dev_close os dev).
Proof. intros s. apply dev_close_length. Qed.

Lemma same_size_dev_fd dev : preserves same_size (dev_fd dev).
Proof. intros s. unfold dev_fd. by destruct (heap s !! oid dev). Qed.

Lemma same_size_getfl os fd : preserves same_size (fcntl_getfl os fd).
Proof.
  intros s. unfold fcntl_getfl. destruct (negb (-1 <? fd)); [done|].
  destruct (fcntl_fails os fd); [done|]. by destruct (filter _ _).
Qed.

Lemma same_size_setfl os fd v : preserves same_size (fcntl_setfl os fd v).
Proof.
  intros s. unfold fcntl_setfl. destruct (negb (-1 <? fd)); [done|].
  destruct (fcntl_fails os fd); [done|]. unfold same_size. simpl. apply length_fmap.
Qed.

Lemma filter_unassigned_length os assigned items :
  forall acc, preserves same_size (filter_unassigned os assigned items acc).
Proof.
  induction items as [|[p dev] items IH]; intros acc; simpl;
    repeat (frame_step;
            eauto using same_size_close, same_size_dev_fd, same_size_getfl,
                        same_size_setfl).
Qed.


(** With distinct descriptors, no kept device is pushed out of the result. *)
Lemma filter_unassigned_keeps os assigned items : forall acc s avail s',
  filter_unassigned os assigned items acc s = (Ok avail, s') ->
  store_ok s ->
  NoDup (oid <$> items.*2) ->
  (forall p dev, (p, dev) ∈ items -> is_open s dev = true) ->
  (forall fd dev, (fd, dev) ∈ acc ->
     ready_handle s fd dev /\ oid dev ∉ oid <$> items.*2) ->
  (forall fd dev, (fd, dev) ∈ acc -> (fd, dev) ∈ avail) /\
  (forall p dev, (p, dev) ∈ items -> p ∉ assigned -> exists fd, (fd, dev) ∈ avail).
Proof.
  induction items as [|[p dev] items IH]; intros acc s avail s' Hrun Hok Hnd Hopen Hacc.
  - simpl in Hrun. injection Hrun as <- <-. split; [done|].
    intros p dev Hin. by apply elem_of_nil in Hin.
  - simpl in Hrun, Hnd. apply NoDup_cons in Hnd as [Hfresh Hnd].
    assert (Hdev : is_open s dev = true) by (apply (Hopen p), elem_of_cons; by left).
    apply is_open_handle in Hdev as (h & Hh & Hpos).
    destruct (bool_decide (p ∉ assigned)) eqn:Hp.
    + apply bool_decide_eq_true in Hp. unfold bind in Hrun.
      destruct (dev_fd dev s) as [[fd|e] s0] eqn:Hfd; [|done].
      apply dev_fd_Ok in Hfd as (-> & h' & Hh' & Hhfd).
      rewrite Hh in Hh'. injection Hh' as <-.
      destruct (fcntl_getfl os fd s) as [[flag|e] s0] eqn:Hget; [|done].
      apply fcntl_getfl_Ok in Hget as (-> & Hfdpos).
      destruct (fcntl_setfl os fd (Z.lor flag O_NONBLOCK) s) as [[[]|e] s1] eqn:Hset;
        [|done].
      pose proof (store_step_setfl os fd (Z.lor flag O_NONBLOCK) s Hok) as Hok1.
      rewrite Hset in Hok1. simpl in Hok1.
      apply fcntl_setfl_Ok in Hset as ->.
      set (s1 := set_heap _ s) in *.
      destruct (IH (dict_set acc fd dev) s1 avail s' Hrun Hok1 Hnd) as (Hkeep & Hitems).
      { intros p' dev' Hin'. subst s1. rewrite is_open_setfl.
        apply (Hopen p'), elem_of_cons. by right. }
      { intros fd' dev' Hin. apply dict_set_elem_of in Hin as [[= -> ->] | Hin].
        - split; [|done]. unfold ready_handle. subst s1. simpl.
          rewrite list_lookup_fmap, Hh. simpl. eexists. split; [done|].
          unfold setfl, nonblocking. rewrite decide_True by done. simpl.
          split; [done|]. split; [done|]. apply nonblocking_lor.
        - destruct (Hacc fd' dev' Hin) as (Hready & Hni).
          split; [by apply ready_handle_setfl; [apply nonblocking_lor|]|].
          simpl in Hni. by apply not_elem_of_cons in Hni as [_ ?]. }
      split.
      * intros fd' dev' Hin. apply Hkeep, dict_set_keeps; [done|].
        intros ->. destruct (Hacc fd dev' Hin) as ((h0 & Hh0 & Hfd0 & Hpos0 & _) & Hni).
        apply Hni. simpl. apply elem_of_cons. left.
        apply (Hok (oid dev') (oid dev) h0 h Hh0 Hh); lia.
      * intros p' dev' Hin Hp'. apply elem_of_cons in Hin as [[= -> ->] | Hin].
        -- exists fd. apply Hkeep, dict_set_in.
        -- by apply (Hitems p' dev').
    + apply bool_decide_eq_false in Hp. unfold bind in Hrun.
      destruct (dev_close_spec os dev s) as (_ & _ & _ & _ & _ & Hframe).
      pose proof (store_step_close os dev s Hok) as Hok1.
      destruct (dev_close os dev s) as [[[]|e] s1] eqn:Hclose; [|done].
      simpl in Hframe, Hok1.
      assert (Hother : forall d, oid d ∈ oid <$> items.*2 ->
                                 heap s1 !! oid d = heap s !! oid d).
      { intros d Hd. apply Hframe. intros Heq. apply Hfresh. by rewrite <- Heq. }
      destruct (IH acc s1 avail s' Hrun Hok1 Hnd) as (Hkeep & Hitems).
      { intros p' dev' Hin'. unfold is_open, handle_open. rewrite Hother.
        - apply (Hopen p'), elem_of_cons. by right.
        - apply list_elem_of_fmap_2. by apply (list_elem_of_fmap_2 snd) in Hin'. }
      { intros fd' dev' Hin. destruct (Hacc fd' dev' Hin) as ((h0 & Hh0 & Hrest) & Hni).
        simpl in Hni. apply not_elem_of_cons in Hni as [Hne Hni].
        split; [|done]. exists h0. by rewrite Hframe. }
      split; [done|].
      intros p' dev' Hin Hp'. apply elem_of_cons in Hin as [[= -> ->] | Hin];
        [done | by apply (Hitems p' dev')].
Qed.

(** ** The scanner as a whole *)

Lemma total_run {A} (m : M A) s : total m -> exists a s', m s = (Ok a, s').
Proof.
  intros Hm. destruct (Hm s) as (a & Ha). destruct (m s) as [r s'].
  simpl in Ha. subst r. by exists a, s'.
Qed.




(** X2. When the scan returns and the descriptors of open handles were
    distinct before it, every node listed by [evdev.list_devices()] that can
    be opened, that [is_keyboard] accepts and whose path is not assigned is
    in the returned mapping -- whatever happens to the other candidates. *)
Theorem scan_finds_every_free_keyboard os s avail s' p :
  store_ok s ->
  discover_available_keyboards os s = (Ok avail, s') ->
  p ∈ list_devices os -> openable_keyboard os p -> p ∉ assigned_paths_of s ->
  exists fd dev, (fd, dev) ∈ avail /\ path dev = p.
Proof.
  intros Hok Hrun Hin Hkb Hfree.
  unfold discover_available_keyboards, bind, emit, modify, get in Hrun. simpl in Hrun.
  set (s0 := set_trace (trace s ++ [CallDiscover]) s) in *.
  pose proof (scan_frame_enumerate os s0) as (Hpk & _).
  pose proof (store_step_enumerate os s0 Hok) as Hok1.
  destruct (enumerate_keyboards_facts os s0)
    as (d & s1 & Henumrun & Henum & Hopen & _ & Hfound & _).
  rewrite Henumrun in Hrun, Hpk, Hok1. simpl in Hpk, Hok1.
  assert (Hassigned : assigned_paths_of s1 = assigned_paths_of s).
  { unfold assigned_paths_of. by rewrite Hpk. }
  rewrite Hassigned in Hrun.
  pose proof Henum as (_ & Hoids & Hall).
  destruct (filter_unassigned_keeps os (assigned_paths_of s) d [] s1 avail s'
              Hrun Hok1 Hoids Hopen) as (_ & Hitems).
  { intros fd dev Hnil. by apply elem_of_nil in Hnil. }
  specialize (Hfound p Hin Hkb).
  apply list_elem_of_fmap in Hfound as ([p' dev] & -> & Hentry). simpl in *.
  destruct (Hitems p' dev Hentry Hfree) as (fd & Hav).
  exists fd, dev. split; [done|]. by destruct (Hall p' dev Hentry) as (-> & _).
Qed.

Lemma scan_finds_every_free_keyboard_witness :
  exists fd dev, (fd, dev) ∈ free_keyboards /\ path dev = "/dev/input/event1".
Proof.
  apply (scan_finds_every_free_keyboard desk one_registered free_keyboards
           (discover_available_keyboards desk one_registered).2).
  - intros i j h h' Hi Hj Hpos Heq.
    destruct i as [|i]; [|by destruct i]. destruct j as [|j]; [done|by destruct j].
  - vm_compute. reflexivity.
  - vm_compute. repeat constructor.
  - split; [done|]. exists keyboard_caps. split; [reflexivity|].
    split; [by eexists|]. exists [30; 44; 57], 30.
    split; [reflexivity|]. split; repeat constructor.
  - vm_compute. intros Hin. apply elem_of_cons in Hin as [Heq|Hin]; [done|].
    by apply elem_of_nil in Hin.
Defined.

(** X3. When the scan returns, the descriptors of open handles were
    distinct, every node that opens also answers the capability query, and
    no two aliases under [/dev/input/by-id] resolve to one node, then every
    handle the scan opened is in the returned mapping or closed. *)
Theorem scan_leaks_nothing_on_the_ordinary_path os s avail s' :
  store_ok s ->
  discover_available_keyboards os s = (Ok avail, s') ->
  classifiable os ->
  (by_id_exists os = true -> NoDup (by_id_targets os (by_id_listdir os))) ->
  leaked s avail s' = [].
Proof.
  intros Hok Hrun Hclass Hnd.
  unfold discover_available_keyboards, bind, emit, modify, get in Hrun. simpl in Hrun.
  set (s0 := set_trace (trace s ++ [CallDiscover]) s) in *.
  pose proof (scan_frame_enumerate os s0) as (Hpk & _).
  pose proof (store_step_enumerate os s0 Hok) as Hok1.
  destruct (enumerate_keyboards_facts os s0)
    as (d & s1 & Henumrun & Henum & Hopen & _ & _ & Hacc).
  rewrite Henumrun in Hrun, Hpk, Hok1. simpl in Hpk, Hok1.
  assert (Hassigned : assigned_paths_of s1 = assigned_paths_of s).
  { unfold assigned_paths_of. by rewrite Hpk. }
  rewrite Hassigned in Hrun.
  pose proof Henum as (_ & Hoids & Hall).
  destruct (filter_unassigned_keeps os (assigned_paths_of s) d [] s1 avail s'
              Hrun Hok1 Hoids Hopen) as (_ & Hitems).
  { intros fd dev Hnil. by apply elem_of_nil in Hnil. }
  destruct (filter_unassigned_spec os (assigned_paths_of s) d [] s1 avail s' Hrun Hoids)
    as (_ & Hcl & Hmono).
  { intros fd dev Hnil. by apply elem_of_nil in Hnil. }
  pose proof (filter_unassigned_length os (assigned_paths_of s) d [] s1) as Hlen.
  rewrite Hrun in Hlen. unfold same_size in Hlen. simpl in Hlen.
  specialize (Hacc Hclass Hnd).
  unfold leaked. apply filter_none. intros o Ho [Hopen' Hnot].
  apply elem_of_seq in Ho.
  destruct (Hacc o) as [Hclosed | Hrec]; [simpl; lia| |].
  - specialize (Hmono (mkDev o "" "") Hclosed). unfold is_open in Hmono. simpl in Hmono.
    congruence.
  - apply list_elem_of_fmap in Hrec as (dev & -> & Hdev).
    apply list_elem_of_fmap in Hdev as ([p dev'] & -> & Hentry). simpl in *.
    destruct (decide (p ∈ assigned_paths_of s)) as [Hp|Hp].
    + specialize (Hcl p dev' Hentry Hp). unfold is_open in Hcl. congruence.
    + destruct (Hitems p dev' Hentry Hp) as (fd & Hav).
      apply Hnot. apply list_elem_of_fmap_2.
      by apply (list_elem_of_fmap_2 snd) in Hav.
Qed.

Lemma scan_leaks_nothing_on_the_ordinary_path_witness :
  leaked one_registered free_keyboards
         (discover_available_keyboards desk one_registered).2 = [].
Proof.
  apply (scan_leaks_nothing_on_the_ordinary_path desk).
  - intros i j h h' Hi Hj Hpos Heq.
    destruct i as [|i]; [|by destruct i]. destruct j as [|j]; [done|by destruct j].
  - vm_compute. reflexivity.
  - intros p _. simpl. by destruct (decide (p = "/dev/input/event2")).
  - intros _. vm_compute. repeat constructor; intros Hin;
      repeat (apply elem_of_cons in Hin as [Heq|Hin]; [done|]);
      by apply elem_of_nil in Hin.
Defined.

(** X4. The scan reads the shared state and writes none of it: the ledger,
    the slot counter, the running flag, the working set and the globals of
    [main.py] are as before, and it neither prints nor schedules a UI
    update. *)
Theorem scan_writes_no_shared_state os s :
  scan_frame s (discover_available_keyboards os s).2.
Proof. apply scan_frame_discover. Qed.

(** ** Counter, flag and requested updates along a run *)

#[local] Instance run_frame_preorder : PreOrder run_frame.
Proof.
  split.
  - intros s. split; [lia|]. split; [by left|done].
  - intros s1 s2 s3 (Hc & Hr & Hn) (Hc' & Hr' & Hn').
    split; [lia|]. split; [|auto].
    destruct Hr' as [Hr'|Hr']; [|by right].
    destruct Hr as [Hr|[Hr Hfull]]; [left; congruence|].
    right. split; [congruence|lia].
Qed.

Lemma scheduled_app t1 t2 : scheduled (t1 ++ t2) = scheduled t1 ++ scheduled t2.
Proof. apply omap_app. Qed.

Lemma scheduled_none t : Forall (fun c => is_after c = false) t -> scheduled t = [].
Proof.
  induction 1 as [|c t Hc _ IH]; [done|].
  unfold scheduled in *. destruct c; try discriminate; exact IH.
Qed.

(** Nothing requested, counter and flag as before. *)
Lemma run_frame_quiet s s' t :
  current_player_registering s' = current_player_registering s ->
  is_running s' = is_running s ->
  trace s' = trace s ++ t -> Forall (fun c => is_after c = false) t ->
  run_frame s s'.
Proof.
  intros Hc Hr Ht Hall. split; [lia|]. split; [by left|].
  intros [H1 Hs]. split; [lia|].
  by rewrite Ht, scheduled_app, (scheduled_none t Hall), app_nil_r, Hc.
Qed.

Lemma run_frame_of_scan s s' : scan_frame s s' -> run_frame s s'.
Proof.
  intros (_ & Hc & Hr & _ & _ & _ & t & Ht & Hall).
  apply (run_frame_quiet s s' t); try done.
  eapply Forall_impl; [exact Hall|]. by intros ? [_ ?].
Qed.

Lemma run_frame_print m : preserves run_frame (print m).
Proof. intros s. apply (run_frame_quiet _ _ [CallPrint m]); try done. by repeat constructor. Qed.

Lemma run_frame_close os dev : preserves run_frame (dev_close os dev).
Proof.
  intros s. unfold dev_close. simpl.
  destruct (heap s !! oid dev) as [h|];
    [destruct (-1 <? h_fd h); [destruct (close_fails os (oid dev))|]|];
    simpl; apply (run_frame_quiet _ _ [CallClose (oid dev)]); try done;
    by repeat constructor.
Qed.

Lemma run_frame_set_open_devices f :
  preserves run_frame (modify (fun s => set_open_devices (f s) s)).
Proof.
  intros s. apply (run_frame_quiet _ _ []); try done. simpl. by rewrite app_nil_r.
Qed.

Lemma run_frame_process_event c dev ev : preserves run_frame (process_event c dev ev).
Proof.
  intros s.
  assert (Hrefl : run_frame s s) by reflexivity.
  unfold process_event, categorize, key_event, bind. simpl.
  destruct (ev_type ev =? ecodes.EV_KEY); [|done].
  destruct (key_known (cy_os c) (ev_code ev)); [|done]. simpl.
  destruct (ev_value ev =? 0); [done|].
  destruct (ev_value ev =? 2); [done|].
  destruct (ev_value ev =? 1); [|done]. simpl.
  unfold bind, print, root_after, emit, modify, get. simpl.
  assert (Hpress : run_frame s (set_trace (trace s ++ [CallPrint (MsgKeyPress dev)]) s)).
  { apply (run_frame_quiet _ _ [CallPrint (MsgKeyPress dev)]); try done.
    by repeat constructor. }
  destruct (current_player_registering s <=? 2) eqn:Ec; simpl; [|done].
  apply Z.leb_le in Ec.
  destruct (bool_decide _); simpl; [|done].
  unfold bind. simpl.
  assert (Hnote : forall t, Forall (fun c => is_after c = false) t ->
            notified s ->
            1 <= current_player_registering s + 1 /\
            scheduled ((((trace s ++ [CallPrint (MsgKeyPress dev)]) ++
                         [CallPrint (MsgAssigned (current_player_registering s) dev)]) ++
                        [CallAfter (current_player_registering s + 1)]) ++ t)
            = seqZ 2 (current_player_registering s + 1 - 1)).
  { intros t Ht [H1 Hs]. split; [lia|].
    rewrite !scheduled_app, Hs, (scheduled_none t Ht), app_nil_r. simpl.
    rewrite !app_nil_r.
    replace (current_player_registering s + 1 - 1)
      with ((current_player_registering s - 1) + 1) by lia.
    rewrite seqZ_app by lia. f_equal.
    rewrite seqZ_cons, seqZ_nil by lia. f_equal. lia. }
  destruct (cy_after_fails c); simpl.
  { split; [simpl; lia|]. split; [by left|]. simpl.
    intros Hn. specialize (Hnote [] (Forall_nil_2 _) Hn). by rewrite app_nil_r in Hnote. }
  destruct (2 <? current_player_registering s + 1) eqn:En; simpl.
  - apply Z.ltb_lt in En. split; [simpl; lia|]. split; [right; simpl; split; [done|lia]|].
    simpl. intros Hn. apply (Hnote [CallPrint MsgBothRegistered]); [|done].
    by repeat constructor.
  - split; [simpl; lia|]. split; [by left|]. simpl.
    intros Hn. specialize (Hnote [] (Forall_nil_2 _) Hn). by rewrite app_nil_r in Hnote.
Qed.

Create HintDb run discriminated.
#[local] Hint Resolve run_frame_print run_frame_close run_frame_set_open_devices
  run_frame_process_event : run.
#[local] Hint Extern 1 (preserves run_frame (modify (set_open_devices ?d))) =>
  (apply (run_frame_set_open_devices (fun _ => d))) : run.

Ltac run := repeat (frame_step; eauto with run).

Lemma run_frame_close_all_quiet os devs : preserves run_frame (close_all_quiet os devs).
Proof. induction devs as [|dev devs IH]; simpl; run. Qed.

Lemma run_frame_close_stale os fds : preserves run_frame (close_stale os fds).
Proof. induction fds as [|fd fds IH]; simpl; run. Qed.

Lemma run_frame_process_events c dev evs : preserves run_frame (process_events c dev evs).
Proof. induction evs as [|ev evs IH]; simpl; run. Qed.

#[local] Hint Resolve run_frame_close_all_quiet run_frame_close_stale
  run_frame_process_events : run.

Lemma run_frame_process_fd c fd : preserves run_frame (process_fd c fd).
Proof. unfold process_fd. run. Qed.

#[local] Hint Resolve run_frame_process_fd : run.

Lemma run_frame_process_ready c rlist : preserves run_frame (process_ready c rlist).
Proof. induction rlist as [|fd rlist IH]; simpl; run. Qed.

Lemma run_frame_wait_ready c : preserves run_frame (wait_ready c).
Proof. unfold wait_ready. run. Qed.

#[local] Hint Resolve run_frame_process_ready run_frame_wait_ready : run.

Lemma run_frame_watch_devices c newly : preserves run_frame (watch_devices c newly).
Proof. unfold watch_devices. run. Qed.

Lemma run_frame_discover os : preserves run_frame (discover_available_keyboards os).
Proof. intros s. apply run_frame_of_scan, scan_frame_discover. Qed.

#[local] Hint Resolve run_frame_watch_devices run_frame_discover : run.

Lemma run_frame_loop_body c : preserves run_frame (loop_body c).
Proof. unfold loop_body. run. Qed.

Lemma run_frame_final_cleanup os : preserves run_frame (final_cleanup os).
Proof. unfold final_cleanup. run. Qed.

Lemma flag_inv_step s s' : run_frame s s' -> flag_inv s -> flag_inv s'.
Proof.
  intros (Hc & Hr & _) Hflag Hoff.
  destruct Hr as [Hr|[_ Hfull]]; [|done].
  rewrite Hr in Hoff. specialize (Hflag Hoff). lia.
Qed.

(** The loop is left with a complete ledger and not otherwise. *)
Lemma monitor_loop_run cycles : forall s,
  flag_inv s ->
  let r := monitor_loop cycles s in
  run_frame s r.2 /\
  (r.1 = Ok Exited -> 2 < current_player_registering r.2) /\
  (r.1 = Ok StillRunning -> current_player_registering r.2 <= 2).
Proof.
  induction cycles as [|c cycles IH]; intros s Hflag; simpl.
  - destruct (is_running s) eqn:Hrun; simpl.
    + destruct (2 <? current_player_registering s) eqn:Hc; simpl.
      * apply Z.ltb_lt in Hc. split; [reflexivity|]. split; [done|discriminate].
      * apply Z.ltb_ge in Hc. split; [reflexivity|]. split; [discriminate|done].
    + split; [reflexivity|]. split; [intros _; by apply Hflag|discriminate].
  - destruct (is_running s) eqn:Hrun; simpl.
    2:{ split; [reflexivity|]. split; [intros _; by apply Hflag|discriminate]. }
    destruct (2 <? current_player_registering s) eqn:Hc; simpl.
    { apply Z.ltb_lt in Hc. split; [reflexivity|]. split; [done|discriminate]. }
    pose proof (run_frame_loop_body c s) as Hbody.
    destruct (loop_body c s) as [[[]|e] s1]; simpl in *.
    + destruct (IH s1 (flag_inv_step s s1 Hbody Hflag)) as (Hrest & Hexit & Hstill).
      split; [by etransitivity|]. done.
    + split; [done|]. split; discriminate.
Qed.

Lemma thread_run cycles final_os s :
  flag_inv s -> notified s ->
  let r := monitor_keyboards_thread cycles final_os s in
  notified r.2 /\
  (r.1 = Ok Exited -> 2 < current_player_registering r.2) /\
  (r.1 = Ok StillRunning -> current_player_registering r.2 <= 2).
Proof.
  intros Hflag Hnote. simpl. unfold monitor_keyboards_thread.
  set (s0 := set_open_devices [] (set_trace (trace s ++ [CallPrint MsgStarting]) s)).
  assert (Hs0 : run_frame s s0).
  { apply (run_frame_quiet _ _ [CallPrint MsgStarting]); try done.
    by repeat constructor. }
  destruct (monitor_loop_run cycles s0 (flag_inv_step s s0 Hs0 Hflag))
    as (Hloop & Hexit & Hstill).
  assert (Hn1 : notified (monitor_loop cycles s0).2).
  { destruct Hloop as (_ & _ & H). destruct Hs0 as (_ & _ & H0). auto. }
  unfold bind, print, emit, modify. simpl. fold s0.
  destruct (monitor_loop cycles s0) as [[[|]|e] s1]; simpl in *.
  - pose proof (run_frame_final_cleanup final_os s1) as (Hc & _ & Hn).
    destruct (final_cleanup final_os s1) as [[[]|e] s2]; simpl in *.
    + split; [auto|]. split; [intros _; specialize (Hexit eq_refl); lia|discriminate].
    + split; [auto|]. split; discriminate.
  - split; [done|]. split; [discriminate|auto].
  - split; [done|]. split; discriminate.
Qed.

Lemma initial_flag_inv : flag_inv (thread_start initial_state).
Proof. intros Hoff. simpl in Hoff. discriminate. Qed.

Lemma initial_notified : notified (thread_start initial_state).
Proof. split; [simpl; lia|reflexivity]. Qed.

(** X5. In every run started by [start()], the thread function is through
    with its loop exactly when both slots of the ledger are filled: it does
    not stop early, and it does not go on once the ledger is complete. *)
Theorem loop_is_left_exactly_when_complete cycles final_os st :
  (start cycles final_os).1 = Ok st ->
  st = Exited <->
  dict_keys (player_keyboards (start cycles final_os).2) = [1; 2].
Proof.
  intros Hst.
  pose proof (start_keeps_ledger_inv cycles final_os) as Hinv.
  destruct (thread_run cycles final_os _ initial_flag_inv initial_notified)
    as (_ & Hexit & Hstill).
  fold (start cycles final_os) in Hexit, Hstill. rewrite Hst in Hexit, Hstill.
  split.
  - intros ->. specialize (Hexit eq_refl).
    destruct Hinv as (Hr & Hk & _). rewrite Hk.
    replace (current_player_registering (start cycles final_os).2) with 3 by lia.
    reflexivity.
  - intros Hfull. destruct st; [done|].
    specialize (Hstill eq_refl). pose proof (ledger_inv_full _ Hinv Hfull). lia.
Qed.

Lemma loop_is_left_exactly_when_complete_witness :
  dict_keys (player_keyboards (start session desk).2) = [1; 2].
Proof.
  apply (loop_is_left_exactly_when_complete session desk Exited); reflexivity.
Defined.

(** X6. In every run started by [start()], [root.after(0, update_ui, n)]
    has been called exactly once per filled slot, in slot order, with [n]
    the number of the slot plus one. *)
Theorem one_update_requested_per_assignment cycles final_os :
  scheduled (trace (start cycles final_os).2) =
  Z.succ <$> dict_keys (player_keyboards (start cycles final_os).2).
Proof.
  pose proof (start_keeps_ledger_inv cycles final_os) as (_ & Hk & _).
  destruct (thread_run cycles final_os _ initial_flag_inv initial_notified)
    as ((_ & Hs) & _).
  fold (start cycles final_os) in Hs. rewrite Hs, Hk.
  rewrite <- (fmap_add_seqZ 1 1). apply list_fmap_ext. intros _ k _. lia.
Qed.

(** ** Code that never raises *)

Lemma total_ret {A} (a : A) : total (ret a).
Proof. intros s. by exists a. Qed.

Lemma total_get : total get.
Proof. intros s. by exists s. Qed.

Lemma total_modify f : total (modify f).
Proof. intros s. by exists tt. Qed.

Lemma total_print m : total (print m).
Proof. intros s. by exists tt. Qed.

Lemma total_bind {A B} (m : M A) (k : A -> M B) :
  total m -> (forall a, total (k a)) -> total (bind m k).
Proof.
  intros Hm Hk s. unfold bind. destruct (Hm s) as (a & Ha).
  destruct (m s) as [r s1]. simpl in Ha. subst r. apply Hk.
Qed.

(** A [try] whose handlers do not raise. *)
Lemma total_try_except {A} (m : M A) (h : exn -> M A) :
  (forall e, total (h e)) -> total (try_except m h).
Proof.
  intros Hh s. unfold try_except. destruct (m s) as [[a|e] s1]; [by exists a|].
  apply Hh.
Qed.

Ltac total_step :=
  lazymatch goal with
  | |- total (bind _ _) => apply total_bind; [|intros ?]
  | |- total (try_except _ _) => apply total_try_except; intros ?
  | |- total (ret _) => apply total_ret
  | |- total get => apply total_get
  | |- total (modify _) => apply total_modify
  | |- total (print _) => apply total_print
  | |- total (if ?b then _ else _) => destruct b
  | |- total (match ?x with _ => _ end) => destruct x
  end.

Lemma total_close_all_quiet os devs : total (close_all_quiet os devs).
Proof. induction devs as [|dev devs IH]; simpl; repeat (total_step; eauto). Qed.

Lemma total_close_stale os fds : total (close_stale os fds).
Proof. induction fds as [|fd fds IH]; simpl; repeat (total_step; eauto). Qed.

Lemma total_process_fd c fd : total (process_fd c fd).
Proof. unfold process_fd. repeat (total_step; eauto). Qed.

Lemma total_process_ready c rlist : total (process_ready c rlist).
Proof.
  induction rlist as [|fd rlist IH]; simpl;
    repeat (total_step; eauto using total_process_fd).
Qed.

Lemma total_wait_ready c : total (wait_ready c).
Proof. unfold wait_ready. repeat (total_step; eauto using total_close_all_quiet). Qed.

Lemma total_watch_devices c newly : total (watch_devices c newly).
Proof.
  unfold watch_devices.
  repeat (total_step;
          eauto using total_close_stale, total_wait_ready, total_process_ready).
Qed.


(** X7. Whatever [select], [dev.read()], the event processing and
    [close()] do, the part of an iteration that follows the scan does not
    raise: each of its exceptions is caught on the spot. *)
Theorem watching_never_raises c newly s :
  exists s', watch_devices c newly s = (Ok tt, s').
Proof.
  destruct (total_run _ s (total_watch_devices c newly)) as ([] & s' & Hrun).
  by exists s'.
Qed.

(** ** Calls made before the cleanup *)

#[local] Instance emits_preorder p : PreOrder (emits p).
Proof.
  split.
  - intros s. exists []. by rewrite app_nil_r.
  - intros s1 s2 s3 (t & Ht & Hall) (t' & Ht' & Hall').
    exists (t ++ t'). split; [by rewrite Ht', Ht, app_assoc|by apply Forall_app].
Qed.

Lemma emits_emit p c : p c = true -> preserves (emits p) (emit c).
Proof. intros Hc s. exists [c]. split; [done|by repeat constructor]. Qed.

Lemma emits_modify p f :
  (forall s, trace (f s) = trace s) -> preserves (emits p) (modify f).
Proof. intros Hf s. exists []. simpl. by rewrite app_nil_r. Qed.

Lemma emits_same_trace {A} p (m : M A) :
  (forall s, trace (m s).2 = trace s) -> preserves (emits p) m.
Proof. intros Hm s. exists []. by rewrite app_nil_r. Qed.

Lemma emits_close p os dev :
  p (CallClose (oid dev)) = true -> preserves (emits p) (dev_close os dev).
Proof.
  intros Hp s. destruct (dev_close_spec os dev s) as (Ht & _).
  exists [CallClose (oid dev)]. split; [done|by repeat constructor].
Qed.

Lemma emits_open p os path :
  p (CallOpen path) = true -> preserves (emits p) (InputDevice_open os path).
Proof.
  intros Hp s. exists [CallOpen path]. split; [|by repeat constructor].
  unfold InputDevice_open. by destruct (open_result os path).
Qed.

Lemma emits_is_keyboard p os dev : preserves (emits p) (is_keyboard os dev).
Proof. apply emits_same_trace. intros s. by rewrite is_keyboard_state. Qed.

Lemma emits_dev_fd p dev : preserves (emits p) (dev_fd dev).
Proof.
  apply emits_same_trace. intros s. unfold dev_fd. by destruct (heap s !! oid dev).
Qed.

Lemma emits_getfl p os fd : preserves (emits p) (fcntl_getfl os fd).
Proof.
  apply emits_same_trace. intros s. unfold fcntl_getfl.
  destruct (negb (-1 <? fd)); [done|]. destruct (fcntl_fails os fd); [done|].
  by destruct (filter _ _).
Qed.

Lemma emits_setfl p os fd v : preserves (emits p) (fcntl_setfl os fd v).
Proof.
  apply emits_same_trace. intros s. unfold fcntl_setfl.
  destruct (negb (-1 <? fd)); [done|]. by destruct (fcntl_fails os fd).
Qed.

Create HintDb emits discriminated.
#[local] Hint Resolve emits_is_keyboard emits_dev_fd emits_getfl emits_setfl : emits.
#[local] Hint Extern 1 (preserves (emits _) (emit _)) =>
  (apply emits_emit; reflexivity) : emits.
#[local] Hint Extern 1 (preserves (emits _) (print _)) =>
  (apply emits_emit; reflexivity) : emits.
#[local] Hint Extern 1 (preserves (emits _) (modify _)) =>
  (apply emits_modify; intros ?; reflexivity) : emits.
#[local] Hint Extern 1 (preserves (emits _) (dev_close _ _)) =>
  (apply emits_close; reflexivity) : emits.
#[local] Hint Extern 1 (preserves (emits _) (InputDevice_open _ _)) =>
  (apply emits_open; reflexivity) : emits.

Ltac emits := repeat (frame_step; eauto with emits).





















(** ** The monitoring set across a scan *)

#[local] Instance old_fds_preorder base : PreOrder (old_fds base).
Proof.
  split.
  - by intros s o Ho.
  - intros s1 s2 s3 H12 H23 o Ho. by rewrite H23, H12.
Qed.

Lemma old_fds_same_heap {A} base (m : M A) :
  (forall s, heap (m s).2 = heap s) -> preserves (old_fds base) m.
Proof. intros Hm s o Ho. by rewrite Hm. Qed.

Lemma old_fds_close base os dev :
  (base <= oid dev)%nat -> preserves (old_fds base) (dev_close os dev).
Proof.
  intros Hge s o Ho.
  destruct (dev_close_spec os dev s) as (_ & _ & _ & _ & _ & Hframe).
  pose proof (Hframe (mkDev o "" "")) as Hsame. simpl in Hsame.
  rewrite Hsame; [done|lia].
Qed.

Lemma old_fds_dev_fd base dev : preserves (old_fds base) (dev_fd dev).
Proof.
  apply old_fds_same_heap. intros s. unfold dev_fd. by destruct (heap s !! oid dev).
Qed.

Lemma old_fds_getfl base os fd : preserves (old_fds base) (fcntl_getfl os fd).
Proof.
  apply old_fds_same_heap. intros s. unfold fcntl_getfl.
  destruct (negb (-1 <? fd)); [done|]. destruct (fcntl_fails os fd); [done|].
  by destruct (filter _ _).
Qed.

Lemma old_fds_setfl base os fd v : preserves (old_fds base) (fcntl_setfl os fd v).
Proof.
  intros s o Ho. unfold fcntl_setfl.
  destruct (negb (-1 <? fd)); [done|]. destruct (fcntl_fails os fd); [done|].
  simpl. rewrite list_lookup_fmap. destruct (heap s !! o) as [h|]; [|done].
  simpl. unfold setfl. by destruct (decide (h_fd h = fd)).
Qed.

Lemma old_fds_filter base os assigned items :
  (forall p dev, (p, dev) ∈ items -> (base <= oid dev)%nat) ->
  forall acc, preserves (old_fds base) (filter_unassigned os assigned items acc).
Proof.
  induction items as [|[p dev] items IH]; intros Hitems acc; simpl.
  - frame.
  - assert (Hdev : (base <= oid dev)%nat) by (apply (Hitems p), elem_of_cons; by left).
    assert (Hrest : forall p' dev', (p', dev') ∈ items -> (base <= oid dev')%nat).
    { intros p' dev' Hin. apply (Hitems p'), elem_of_cons. by right. }
    repeat (frame_step;
            eauto using old_fds_close, old_fds_dev_fd, old_fds_getfl, old_fds_setfl).
Qed.

Lemma scan_candidate_fresh base os p d s :
  (base <= length (heap s))%nat -> fresh_from base d ->
  let r := scan_candidate os p d s in
  (base <= length (heap r.2))%nat /\ forall d', r.1 = Ok d' -> fresh_from base d'.
Proof.
  intros Hbase Hd. pose proof (scan_candidate_cases os p d s) as Hcases.
  simpl in *.
  assert (Hset : forall nm, fresh_from base (dict_set d p (mkDev (length (heap s)) p nm))).
  { intros nm p' dev' Hin. apply dict_set_elem_of in Hin as [[= -> ->] | Hin]; [done|].
    by apply (Hd p'). }
  destruct Hcases as [(_ & -> & -> & _) | (nm & _ & [(_ & -> & -> & _) |
    [(_ & -> & -> & _) | (_ & _ & -> & -> & _)]])];
    (split; [rewrite ?length_app; simpl; lia|intros d' [= <-]; auto]).
Qed.

Lemma scan_by_id_fresh base os entries : forall d s,
  (base <= length (heap s))%nat -> fresh_from base d ->
  let r := scan_by_id os entries d s in
  (base <= length (heap r.2))%nat /\ forall d', r.1 = Ok d' -> fresh_from base d'.
Proof.
  induction entries as [|e entries IH]; intros d s Hbase Hd; simpl.
  - split; [done|]. by intros d' [= <-].
  - destruct (String.prefix _ _); [|by apply IH].
    unfold bind.
    destruct (scan_candidate_fresh base os (realpath os (path_join by_id_path e)) d s
                Hbase Hd) as (Hbase1 & Hd1).
    destruct (scan_candidate os _ d s) as [[d1|e1] s1]; simpl in *.
    + by apply IH; [|apply Hd1].
    + split; [done|]. by intros d'.
Qed.

Lemma scan_fallback_fresh base os paths : forall d s,
  (base <= length (heap s))%nat -> fresh_from base d ->
  let r := scan_fallback os paths d s in
  (base <= length (heap r.2))%nat /\ forall d', r.1 = Ok d' -> fresh_from base d'.
Proof.
  induction paths as [|p paths IH]; intros d s Hbase Hd; simpl.
  - split; [done|]. by intros d' [= <-].
  - destruct (dict_mem d p); simpl; [by apply IH|].
    unfold bind.
    destruct (scan_candidate_fresh base os p d s Hbase Hd) as (Hbase1 & Hd1).
    destruct (scan_candidate os p d s) as [[d1|e1] s1]; simpl in *.
    + by apply IH; [|apply Hd1].
    + split; [done|]. by intros d'.
Qed.

Lemma enumerate_keyboards_fresh os s d s' :
  enumerate_keyboards os s = (Ok d, s') -> fresh_from (length (heap s)) d.
Proof.
  unfold enumerate_keyboards, bind. intros Hrun.
  assert (Hnil : fresh_from (length (heap s)) []).
  { intros p dev Hin. by apply elem_of_nil in Hin. }
  destruct (by_id_exists os).
  - destruct (scan_by_id_fresh (length (heap s)) os (by_id_listdir os) [] s)
      as (Hbase1 & Hd1); [done..|].
    destruct (scan_by_id os (by_id_listdir os) [] s) as [[d1|e1] s1]; [|done].
    simpl in *.
    destruct (scan_fallback_fresh (length (heap s)) os (list_devices os) d1 s1)
      as (_ & Hd2); [done|by apply Hd1|].
    apply Hd2. by rewrite Hrun.
  - simpl in Hrun.
    destruct (scan_fallback_fresh (length (heap s)) os (list_devices os) [] s)
      as (_ & Hd2); [done..|].
    apply Hd2. by rewrite Hrun.
Qed.

Lemma filter_all {A} (P : A -> Prop) `{!forall x, Decision (P x)} (l : list A) :
  Forall P l -> filter P l = l.
Proof.
  induction 1 as [|x l Hx Hl IH]; [done|].
  rewrite filter_cons_True by done. by rewrite IH.
Qed.

(** The scan returns no descriptor of an object that was open before it. *)
Lemma scan_descriptors_are_new os s avail s' :
  store_ok s ->
  discover_available_keyboards os s = (Ok avail, s') ->
  forall o h, heap s !! o = Some h -> -1 < h_fd h -> h_fd h ∉ dict_keys avail.
Proof.
  intros Hok Hrun o h Ho Hpos Hin.
  pose proof (store_step_discover os s Hok) as Hok'. rewrite Hrun in Hok'.
  simpl in Hok'.
  unfold discover_available_keyboards, bind, emit, modify, get in Hrun. simpl in Hrun.
  set (s0 := set_trace (trace s ++ [CallDiscover]) s) in *.
  destruct (enumerate_keyboards_facts os s0)
    as (d & s1 & Henum_run & Henum & _ & (l & Hheap) & _).
  rewrite Henum_run in Hrun.
  pose proof (enumerate_keyboards_fresh os s0 d s1 Henum_run) as Hfresh.
  pose proof Henum as (_ & Hoids & _).
  destruct (filter_unassigned_spec os _ d [] s1 avail s' Hrun Hoids) as (Hav & _).
  { intros fd dev Hnil. by apply elem_of_nil in Hnil. }
  assert (Hlt : (o < length (heap s0))%nat) by (apply lookup_lt_is_Some; eauto).
  assert (Hold : h_fd <$> heap s' !! o = Some (h_fd h)).
  { pose proof (old_fds_filter (length (heap s0)) os (assigned_paths_of s1) d
                  Hfresh [] s1 o Hlt) as Hkept.
    rewrite Hrun in Hkept. simpl in Hkept. rewrite Hkept, Hheap.
    rewrite lookup_app_l by done. simpl. by rewrite Ho. }
  destruct (heap s' !! o) as [h'|] eqn:Ho'; [|done]. simpl in Hold.
  injection Hold as Hfd.
  apply list_elem_of_fmap in Hin as ([fd dev] & Hkey & Hentry). simpl in Hkey.
  subst fd.
  destruct (Hav _ _ Hentry) as ((hd & Hhd & Hfd' & _) & [Hnil | (p & Hitem & _)]).
  { by apply elem_of_nil in Hnil. }
  assert (Heq : o = oid dev) by (apply (Hok' o (oid dev) h' hd); [done|done|lia|lia]).
  specialize (Hfresh p dev Hitem). lia.
Qed.

Lemma fds_to_close_all os s avail s' :
  store_ok s -> monitored_live s ->
  discover_available_keyboards os s = (Ok avail, s') ->
  filter (fun fd => negb (dict_mem avail fd)) (dict_keys (open_devices s'))
  = dict_keys (open_devices s').
Proof.
  intros Hok Hlive Hrun.
  pose proof (scan_frame_discover os s) as (_ & _ & _ & Hopen & _).
  rewrite Hrun in Hopen. simpl in Hopen. rewrite Hopen.
  apply filter_all, Forall_forall. intros fd Hfd.
  apply list_elem_of_fmap in Hfd as ([fd' dev] & -> & Hentry). simpl.
  destruct (Hlive _ _ Hentry) as (h & Hh & <- & Hpos).
  apply Is_true_true, negb_true_iff. destruct (dict_mem avail (h_fd h)) eqn:Hmem; [|done].
  apply dict_mem_true in Hmem.
  by destruct (scan_descriptors_are_new os s avail s' Hok Hrun _ h Hh Hpos).
Qed.

(** X10. After a scan that returns, every device the thread still holds
    open in its monitoring set counts as stale: the scan opened every node
    anew, on descriptors that differ from all those in use, so the list
    [fds_to_close] of line 111 is the whole monitoring set. *)
Theorem a_scan_makes_the_whole_monitoring_set_stale os s avail s' :
  store_ok s -> monitored_live s ->
  discover_available_keyboards os s = (Ok avail, s') ->
  filter (fun fd => negb (dict_mem avail fd)) (dict_keys (open_devices s'))
  = dict_keys (open_devices s').
Proof. apply fds_to_close_all. Qed.

Lemma a_scan_makes_the_whole_monitoring_set_stale_witness :
  filter (fun fd => negb (dict_mem [(4, mkDev 1 "/dev/input/event0" "dev /dev/input/event0");
                                    (5, mkDev 3 "/dev/input/event1" "dev /dev/input/event1")]
                                   fd))
         (dict_keys (open_devices (discover_available_keyboards desk watching).2))
  = dict_keys (open_devices (discover_available_keyboards desk watching).2).
Proof.
  apply (a_scan_makes_the_whole_monitoring_set_stale desk watching).
  - intros i j h h' Hi Hj Hpos Heq.
    destruct i as [|i]; [|by destruct i]. destruct j as [|j]; [done|by destruct j].
  - intros fd dev Hin. apply list_elem_of_singleton in Hin as [= -> ->].
    by exists (mkHandle 3 2050).
  - vm_compute. reflexivity.
Defined.

(** ** The refresh of the monitoring set *)

Lemma dict_del_elem_of {K V} `{EqDecision K} (d : PyDict K V) k k0 v0 :
  (k0, v0) ∈ dict_del d k -> (k0, v0) ∈ d.
Proof.
  induction d as [|[k' v'] d IH]; simpl; [done|].
  destruct (decide (k = k')) as [->|Hk]; rewrite !elem_of_cons; auto.
  intros [Heq | Hin]; auto.
Qed.

Lemma add_new_app items : forall d,
  NoDup (dict_keys items) ->
  (forall k, k ∈ dict_keys items -> k ∉ dict_keys d) ->
  add_new items d = d ++ items.
Proof.
  induction items as [|[k v] items IH]; intros d Hnd Hdisj; simpl.
  - by rewrite app_nil_r.
  - simpl in Hnd. apply NoDup_cons in Hnd as [Hk Hnd].
    assert (Hfree : k ∉ dict_keys d) by (apply Hdisj; simpl; apply elem_of_cons; auto).
    assert (Hmem : dict_mem d k = false).
    { destruct (dict_mem d k) eqn:E; [|done]. by apply dict_mem_true in E. }
    rewrite Hmem. simpl. rewrite (dict_set_fresh _ _ _ Hfree), IH; [|done|].
    + by rewrite <- app_assoc.
    + intros k' Hk'. unfold dict_keys. rewrite fmap_app, elem_of_app. simpl.
      rewrite list_elem_of_singleton. intros [Hd | ->]; [|done].
      apply (Hdisj k'); [simpl; apply elem_of_cons; auto|done].
Qed.

(** X11. The step that adds the scan result to the monitoring set never
    replaces the device monitored under a descriptor that is already
    there; a descriptor that is not there gets the device the scan
    returned for it. *)
Theorem adding_never_replaces_a_monitored_device newly_available_devices open_devs fd :
  dict_get (add_new newly_available_devices open_devs) fd
  = match dict_get open_devs fd with
    | Some dev => Some dev
    | None => dict_get newly_available_devices fd
    end.
Proof.
  revert open_devs.
  induction newly_available_devices as [|[k v] items IH]; intros d; simpl.
  - by destruct (dict_get d fd).
  - rewrite IH. unfold dict_mem.
    destruct (dict_get d k) as [old|] eqn:Hk; simpl.
    + destruct (dict_get d fd) eqn:Hfd; [done|].
      destruct (decide (fd = k)) as [->|Hne]; [congruence|done].
    + destruct (decide (fd = k)) as [->|Hne].
      * by rewrite dict_get_set_eq, Hk.
      * by rewrite dict_get_set_ne.
Qed.

Lemma close_stale_cons os fd rest s :
  close_stale os (fd :: rest) s = close_stale os rest (close_stale os [fd] s).2.
Proof.
  simpl. set (m := try_except _ _). unfold bind.
  assert (Hm : total m).
  { subst m. apply total_try_except. intros e. apply total_print. }
  by destruct (total_run m s Hm) as ([] & s1 & ->).
Qed.

Lemma close_stale_one os fd s :
  match dict_get (open_devices s) fd with
  | None =>
      close_stale os [fd] s
      = (Ok tt, set_trace (trace s ++ [CallPrint (MsgErrorClosingOld fd KeyError)]) s)
  | Some dev =>
      match dev_close os dev s with
      | (Ok _, s1) =>
          close_stale os [fd] s
          = (Ok tt, set_open_devices (dict_del (open_devices s1) fd) s1)
      | (Raise e, s1) =>
          close_stale os [fd] s
          = (Ok tt, set_trace (trace s1 ++ [CallPrint (MsgErrorClosingOld fd e)]) s1)
      end
  end.
Proof.
  simpl. unfold bind, try_except, get, print, emit, modify. simpl.
  destruct (dict_get (open_devices s) fd) as [dev|]; [|done].
  by destruct (dev_close os dev s) as [[[]|e] s1].
Qed.

Lemma lookup_same_length {A} (l l' : list A) o :
  length l' = length l -> l !! o <> None -> l' !! o <> None.
Proof.
  intros Hlen Hin Hnone. apply lookup_ge_None in Hnone.
  apply Hin, lookup_ge_None. lia.
Qed.

Lemma dev_close_returns os dev s :
  heap s !! oid dev <> None -> close_fails os (oid dev) = false ->
  (dev_close os dev s).1 = Ok tt.
Proof.
  intros Hobj Hclose. unfold dev_close. simpl.
  destruct (heap s !! oid dev) as [h|]; [|done].
  destruct (-1 <? h_fd h); [|done]. by rewrite Hclose.
Qed.

Lemma close_stale_one_spec os fd s :
  let s' := (close_stale os [fd] s).2 in
  length (heap s') = length (heap s) /\
  player_keyboards s' = player_keyboards s /\
  (forall d, is_open s d = false -> is_open s' d = false) /\
  (forall dev, dict_get (open_devices s) fd = Some dev -> is_open s' dev = false) /\
  (forall fd', fd' <> fd -> dict_get (open_devices s') fd' = dict_get (open_devices s) fd') /\
  (forall fd' dev, (fd', dev) ∈ open_devices s' -> (fd', dev) ∈ open_devices s) /\
  (NoDup (dict_keys (open_devices s)) -> NoDup (dict_keys (open_devices s'))) /\
  (forall o, (forall dev, dict_get (open_devices s) fd = Some dev -> oid dev <> o) ->
             heap s' !! o = heap s !! o) /\
  (NoDup (dict_keys (open_devices s)) ->
   forall dev, dict_get (open_devices s) fd = Some dev ->
     heap s !! oid dev <> None -> close_fails os (oid dev) = false ->
     dict_get (open_devices s') fd = None).
Proof.
  pose proof (close_stale_one os fd s) as Hone. cbv zeta.
  destruct (dict_get (open_devices s) fd) as [dev|] eqn:Hget.
  2:{ rewrite Hone. simpl. by repeat split. }
  destruct (dev_close_spec os dev s) as (_ & Hpk & Hod & Hcl & Hmono & Hfr).
  pose proof (dev_close_length os dev s) as Hlen.
  pose proof (dev_close_returns os dev s) as Hret.
  assert (Hframe : forall o, oid dev <> o ->
                             heap (dev_close os dev s).2 !! o = heap s !! o).
  { intros o Hne. pose proof (Hfr (mkDev o "" "")) as Hsame. simpl in Hsame. auto. }
  destruct (dev_close os dev s) as [[[]|e] s1]; rewrite Hone; simpl in *.
  - split; [done|]. split; [done|]. split; [done|].
    split; [by intros ? [= <-]|].
    split; [intros fd' Hne; by rewrite Hod, dict_get_del_ne|].
    split; [intros fd' dev' Hin; rewrite Hod in Hin; by apply dict_del_elem_of in Hin|].
    split; [intros Hnd; rewrite Hod; by apply dict_del_keys_NoDup|].
    split; [intros o Ho; by apply Hframe, Ho|].
    intros Hnd dev' _ _ _. rewrite Hod. by apply dict_get_del_eq.
  - split; [done|]. split; [done|]. split; [done|].
    split; [by intros ? [= <-]|].
    split; [intros fd' Hne; by rewrite Hod|].
    split; [intros fd' dev' Hin; by rewrite Hod in Hin|].
    split; [by rewrite Hod|].
    split; [intros o Ho; by apply Hframe, Ho|].
    intros Hnd dev' [= <-] Hobj Hclose. by specialize (Hret Hobj Hclose).
Qed.

Lemma dict_get_Some_key {K V} `{EqDecision K} (d : PyDict K V) k v :
  dict_get d k = Some v -> k ∈ dict_keys d.
Proof.
  intros Hget. destruct (decide (k ∈ dict_keys d)) as [|Hni]; [done|].
  apply dict_get_None in Hni. congruence.
Qed.

Lemma close_stale_spec os fds : forall s,
  let s' := (close_stale os fds s).2 in
  length (heap s') = length (heap s) /\
  player_keyboards s' = player_keyboards s /\
  (forall d, is_open s d = false -> is_open s' d = false) /\
  (forall fd dev, fd ∈ fds -> dict_get (open_devices s) fd = Some dev ->
                  is_open s' dev = false) /\
  (forall fd, fd ∉ fds -> dict_get (open_devices s') fd = dict_get (open_devices s) fd) /\
  (forall fd dev, (fd, dev) ∈ open_devices s' -> (fd, dev) ∈ open_devices s) /\
  (NoDup (dict_keys (open_devices s)) -> NoDup (dict_keys (open_devices s'))) /\
  (forall o, (forall fd dev, (fd, dev) ∈ open_devices s -> oid dev <> o) ->
             heap s' !! o = heap s !! o) /\
  (NoDup (dict_keys (open_devices s)) ->
   forall fd dev, fd ∈ fds -> dict_get (open_devices s) fd = Some dev ->
     heap s !! oid dev <> None -> close_fails os (oid dev) = false ->
     dict_get (open_devices s') fd = None).
Proof.
  induction fds as [|fd fds IH]; intros s.
  - simpl. repeat split; try done.
    + intros fd dev Hin. by apply elem_of_nil in Hin.
    + intros _ fd dev Hin. by apply elem_of_nil in Hin.
  - rewrite close_stale_cons.
    destruct (close_stale_one_spec os fd s)
      as (Hlen1 & Hpk1 & Hmono1 & Hcl1 & Hget1 & Hsub1 & Hnd1 & Hfr1 & Hrm1).
    set (s1 := (close_stale os [fd] s).2) in *.
    destruct (IH s1) as (Hlen & Hpk & Hmono & Hcl & Hget & Hsub & Hnd & Hfr & Hrm).
    set (s' := (close_stale os fds s1).2) in *. simpl.
    assert (Hgone : forall k, dict_get (open_devices s1) k = None ->
                              dict_get (open_devices s') k = None).
    { intros k Hk. destruct (dict_get (open_devices s') k) as [v|] eqn:Hv; [|done].
      apply dict_get_Some_elem, Hsub, (list_elem_of_fmap_2 fst) in Hv.
      apply dict_get_None in Hk. by destruct Hk. }
    split; [by rewrite Hlen|]. split; [by rewrite Hpk|]. split; [auto|].
    split.
    { intros fd' dev Hin Hdev. apply elem_of_cons in Hin as [-> | Hin]; [auto|].
      destruct (decide (fd' = fd)) as [->|Hne]; [auto|].
      apply (Hcl fd'); [done|]. by rewrite Hget1. }
    split.
    { intros fd' Hni. apply not_elem_of_cons in Hni as [Hne Hni].
      by rewrite Hget, Hget1. }
    split; [auto|]. split; [auto|].
    split.
    { intros o Ho. rewrite Hfr, Hfr1; [done|..].
      - intros dev Hdev. apply (Ho fd). by apply dict_get_Some_elem.
      - intros fd' dev Hin. apply (Ho fd'). auto. }
    intros Hnodup fd' dev Hin Hdev Hobj Hclose.
    destruct (decide (fd' = fd)) as [->|Hne].
    + apply Hgone. by apply (Hrm1 Hnodup dev).
    + apply elem_of_cons in Hin as [-> | Hin]; [done|].
      apply (Hrm (Hnd1 Hnodup) fd' dev); [done|by rewrite Hget1| |done].
      by apply (lookup_same_length (heap s)).
Qed.



(** ** Recovery from a failing read and a failing wait *)

(** X13. When [dev.read()] raises [OSError], the device is closed -- also
    when [close()] raises --, its entry leaves the monitoring set, the
    ledger is not written, and the descriptors that were ready after it
    are not read in this iteration. *)
Theorem read_error_drops_the_device c fd dev rest s :
  dict_get (open_devices s) fd = Some dev ->
  cy_read c dev = ReadRaises OSError ->
  let r := process_fd c fd s in
  r.1 = Ok true /\
  is_open r.2 dev = false /\
  open_devices r.2 = dict_del (open_devices s) fd /\
  player_keyboards r.2 = player_keyboards s /\
  process_ready c (fd :: rest) s = (Ok tt, r.2).
Proof.
  intros Hget Hread.
  assert (Hrun : exists s', process_fd c fd s = (Ok true, s') /\
                   is_open s' dev = false /\
                   open_devices s' = dict_del (open_devices s) fd /\
                   player_keyboards s' = player_keyboards s).
  { unfold process_fd, bind, get, try_except, print, emit, modify. simpl.
    rewrite Hget, Hread. simpl. unfold dict_mem. rewrite Hget. simpl. rewrite Hget.
    set (s0 := set_trace _ s).
    destruct (dev_close_spec (cy_os c) dev s0) as (_ & Hpk & Hod & Hcl & _).
    destruct (dev_close (cy_os c) dev s0) as [[[]|e] s1]; simpl in *;
      eexists; (split; [reflexivity|]); simpl; by rewrite Hod. }
  destruct Hrun as (s' & Hrun & Hcl & Hod & Hpk). simpl.
  unfold bind. rewrite Hrun. by repeat split.
Qed.

Lemma read_error_drops_the_device_witness :
  let r := process_fd storm 3 watching in
  r.1 = Ok true /\
  is_open r.2 keyboard0 = false /\
  open_devices r.2 = dict_del (open_devices watching) 3 /\
  player_keyboards r.2 = player_keyboards watching /\
  process_ready storm [3; 4] watching = (Ok tt, r.2).
Proof.
  apply (read_error_drops_the_device storm 3 keyboard0 [4] watching); reflexivity.
Defined.

(** X14. When [select] raises [ValueError], every monitored device is
    closed, whether or not its [close()] raises, the monitoring set is
    emptied, the ledger is not written, and the iteration ends there. *)
Theorem invalid_descriptor_empties_the_monitoring_set c s :
  cy_select c (dict_keys (open_devices s)) = SelectRaises ValueError ->
  let r := wait_ready c s in
  r.1 = Ok None /\
  open_devices r.2 = [] /\
  (forall dev, dev ∈ dict_values (open_devices s) -> is_open r.2 dev = false) /\
  player_keyboards r.2 = player_keyboards s.
Proof.
  intros Hsel. unfold wait_ready, bind, get, print, emit, modify. simpl.
  rewrite Hsel. simpl. set (s0 := set_trace _ s).
  destruct (close_all_quiet_spec (cy_os c) (dict_values (open_devices s)) s0)
    as (s1 & -> & _ & Hpk & _ & Hcl & _).
  simpl. by repeat split.
Qed.

Lemma invalid_descriptor_empties_the_monitoring_set_witness :
  let r := wait_ready storm watching in
  r.1 = Ok None /\
  open_devices r.2 = [] /\
  (forall dev, dev ∈ dict_values (open_devices watching) -> is_open r.2 dev = false) /\
  player_keyboards r.2 = player_keyboards watching.
Proof.
  apply (invalid_descriptor_empties_the_monitoring_set storm watching). reflexivity.
Defined.

(** ** The monitoring set across an iteration *)

Lemma filter_unassigned_keys os assigned items : forall acc s avail s',
  filter_unassigned os assigned items acc s = (Ok avail, s') ->
  NoDup (dict_keys acc) -> NoDup (dict_keys avail).
Proof.
  induction items as [|[p dev] items IH]; intros acc s avail s' Hrun Hnd;
    simpl in Hrun.
  - by injection Hrun as <- _.
  - destruct (bool_decide (p ∉ assigned)); unfold bind in Hrun.
    + destruct (dev_fd dev s) as [[fd|e] s0]; [|done].
      destruct (fcntl_getfl os fd s0) as [[flag|e] s1]; [|done].
      destruct (fcntl_setfl os fd _ s1) as [[[]|e] s2]; [|done].
      eapply IH; [exact Hrun|]. by apply dict_set_keys_NoDup.
    + destruct (dev_close os dev s) as [[[]|e] s0]; [|done]. by eapply IH.
Qed.

(** What a returning scan leaves: the objects that existed keep their
    descriptors, and the mapping holds new objects only, each open on its
    key. *)
Lemma discover_facts os s avail s' :
  discover_available_keyboards os s = (Ok avail, s') ->
  old_fds (length (heap s)) s s' /\
  NoDup (dict_keys avail) /\
  (forall fd dev, (fd, dev) ∈ avail ->
     ready_handle s' fd dev /\ (length (heap s) <= oid dev)%nat).
Proof.
  intros Hrun.
  unfold discover_available_keyboards, bind, emit, modify, get in Hrun. simpl in Hrun.
  set (s0 := set_trace (trace s ++ [CallDiscover]) s) in *.
  destruct (enumerate_keyboards_facts os s0)
    as (d & s1 & Henum_run & Henum & _ & (l & Hheap) & _).
  rewrite Henum_run in Hrun.
  pose proof (enumerate_keyboards_fresh os s0 d s1 Henum_run) as Hfresh.
  pose proof Henum as (_ & Hoids & _).
  destruct (filter_unassigned_spec os _ d [] s1 avail s' Hrun Hoids) as (Hav & _).
  { intros fd dev Hnil. by apply elem_of_nil in Hnil. }
  split; [|split].
  - intros o Ho.
    pose proof (old_fds_filter (length (heap s0)) os (assigned_paths_of s1) d
                  Hfresh [] s1 o Ho) as Hkept.
    rewrite Hrun in Hkept. simpl in Hkept. rewrite Hkept, Hheap.
    by rewrite lookup_app_l.
  - apply (filter_unassigned_keys _ _ _ _ _ _ _ Hrun). constructor.
  - intros fd dev Hentry.
    destruct (Hav _ _ Hentry) as (Hready & [Hnil | (p & Hitem & _)]).
    { by apply elem_of_nil in Hnil. }
    split; [done|]. apply (Hfresh p dev Hitem).
Qed.

Lemma monitoring_ok_narrow s s' :
  monitoring_ok s -> heap s' = heap s ->
  (forall fd dev, (fd, dev) ∈ open_devices s' -> (fd, dev) ∈ open_devices s) ->
  NoDup (dict_keys (open_devices s')) ->
  monitoring_ok s'.
Proof.
  intros (Hok & Hlive & _) Hheap Hsub Hnd. split; [by apply (store_ok_heap s)|].
  split; [|done]. intros fd dev Hin. rewrite Hheap. by apply Hlive, Hsub.
Qed.

#[local] Instance shrinks_preorder : PreOrder shrinks.
Proof.
  split.
  - by intros s.
  - intros s1 s2 s3 (Hok12 & Hsub12 & Hcl12) (Hok23 & Hsub23 & Hcl23).
    split; [auto|]. split; [auto|auto].
Qed.

Lemma shrinks_same s s' :
  heap s' = heap s -> open_devices s' = open_devices s -> shrinks s s'.
Proof.
  intros Hheap Hod. split; [|split].
  - intros Hinv. pose proof Hinv as (_ & _ & Hnd).
    apply (monitoring_ok_narrow s); rewrite ?Hod; auto.
  - by rewrite Hod.
  - unfold is_open, handle_open. by rewrite Hheap.
Qed.

Lemma shrinks_modify f :
  (forall s, heap (f s) = heap s /\ open_devices (f s) = open_devices s) ->
  preserves shrinks (modify f).
Proof. intros Hf s. simpl. by apply shrinks_same; apply Hf. Qed.

Lemma shrinks_print m : preserves shrinks (print m).
Proof. by apply shrinks_modify. Qed.

Lemma shrinks_process_event c dev ev : preserves shrinks (process_event c dev ev).
Proof.
  intros s. destruct (process_event_cases c dev ev s) as (Hheap & Hod & _).
  by apply shrinks_same.
Qed.

Lemma shrinks_process_events c dev evs : preserves shrinks (process_events c dev evs).
Proof.
  induction evs as [|ev evs IH]; simpl;
    repeat (frame_step; eauto using shrinks_process_event).
Qed.

Lemma dict_del_other {K V} `{EqDecision K} (d : PyDict K V) k k0 v0 :
  NoDup (dict_keys d) -> (k0, v0) ∈ dict_del d k -> k0 <> k.
Proof.
  induction d as [|[k' v'] d IH]; simpl; [by intros _ Hin; apply elem_of_nil in Hin|].
  rewrite NoDup_cons. intros [Hni Hnd].
  destruct (decide (k = k')) as [->|Hk].
  - intros Hin ->. apply Hni. by apply (list_elem_of_fmap_2 fst) in Hin.
  - rewrite elem_of_cons. intros [[= -> ->] | Hin]; [done|auto].
Qed.

(** Lines 190-195: close the device of [fd], then drop its entry. *)
Lemma shrinks_drop os fd :
  preserves shrinks
    (s <- get ;;
     try_except
       (match dict_get (open_devices s) fd with
        | None => raise KeyError
        | Some d => dev_close os d
        end)
       (fun _ => ret tt) ;;;
     modify (fun s => set_open_devices (dict_del (open_devices s) fd) s)).
Proof.
  intros s. unfold bind, get, try_except, modify. simpl.
  destruct (dict_get (open_devices s) fd) as [dev|] eqn:Hget; simpl.
  2:{ split; [|split]; simpl.
      - intros Hinv. pose proof Hinv as (_ & _ & Hnd).
        apply (monitoring_ok_narrow s); simpl; auto.
        + intros fd' dev'. apply dict_del_elem_of.
        + by apply dict_del_keys_NoDup.
      - intros fd' dev'. apply dict_del_elem_of.
      - done. }
  destruct (dev_close_spec os dev s) as (_ & _ & Hod & _ & Hmono & Hfr).
  pose proof (store_step_close os dev s) as Hstore.
  assert (Hgoal : forall s1, open_devices s1 = open_devices s ->
            (forall d, is_open s d = false -> is_open s1 d = false) ->
            (forall d, oid d <> oid dev -> heap s1 !! oid d = heap s !! oid d) ->
            store_step s s1 ->
            shrinks s (set_open_devices (dict_del (open_devices s1) fd) s1)).
  { intros s1 Hod1 Hmono1 Hfr1 Hstore1. split; [|split]; simpl.
    - intros (Hok & Hlive & Hnd). split; [by apply Hstore1|]. split.
      + intros fd' dev' Hin. simpl in Hin. rewrite Hod1 in Hin.
        pose proof (dict_del_other _ _ _ _ Hnd Hin) as Hne.
        apply dict_del_elem_of in Hin.
        destruct (Hlive _ _ Hin) as (h' & Hh' & Hfd' & Hpos').
        exists h'. split; [|done]. simpl. rewrite Hfr1; [done|].
        intros Heq. apply dict_get_Some_elem in Hget.
        destruct (Hlive _ _ Hget) as (h & Hh & Hfd & _).
        rewrite Heq, Hh in Hh'. injection Hh' as <-. congruence.
      + simpl. rewrite Hod1. by apply dict_del_keys_NoDup.
    - intros fd' dev' Hin. rewrite Hod1 in Hin. by apply dict_del_elem_of in Hin.
    - exact Hmono1. }
  destruct (dev_close os dev s) as [[[]|e] s1]; simpl in *; by apply Hgoal.
Qed.

Lemma shrinks_process_fd c fd : preserves shrinks (process_fd c fd).
Proof.
  unfold process_fd.
  repeat (frame_step;
          eauto using shrinks_process_events, shrinks_print, shrinks_drop).
Qed.

Lemma shrinks_process_ready c rlist : preserves shrinks (process_ready c rlist).
Proof.
  induction rlist as [|fd rlist IH]; simpl;
    repeat (frame_step; eauto using shrinks_process_fd).
Qed.

Lemma store_step_print m : preserves store_step (print m).
Proof. apply store_step_emit. Qed.

Lemma store_step_close_all_quiet os devs :
  preserves store_step (close_all_quiet os devs).
Proof. induction devs as [|dev devs IH]; simpl; store. Qed.

Lemma store_step_close_stale os fds : preserves store_step (close_stale os fds).
Proof.
  induction fds as [|fd fds IH]; simpl;
    repeat (frame_step;
            eauto using store_step_print, store_step_modify_frame with store).
Qed.

(** Lines 142-147: close every monitored device, then clear the set. *)
Lemma shrinks_reset os :
  preserves shrinks
    (s <- get ;;
     close_all_quiet os (dict_values (open_devices s)) ;;;
     modify (set_open_devices []) ;;;
     @ret (option (list Z)) None).
Proof.
  intros s. unfold bind, get, modify. simpl.
  pose proof (store_step_close_all_quiet os (dict_values (open_devices s)) s) as Hstore.
  destruct (close_all_quiet_spec os (dict_values (open_devices s)) s)
    as (s1 & Hrun & _ & _ & _ & _ & Hmono & _).
  rewrite Hrun in *. simpl in *. split; [|split]; simpl.
  - intros (Hok & _ & _). split; [auto|]. split; [|constructor].
    intros fd dev Hin. by apply elem_of_nil in Hin.
  - intros fd dev Hin. by apply elem_of_nil in Hin.
  - exact Hmono.
Qed.

Lemma shrinks_wait_ready c : preserves shrinks (wait_ready c).
Proof.
  unfold wait_ready.
  repeat (frame_step; eauto using shrinks_print, shrinks_reset).
Qed.

Lemma shrinks_watch_rest c :
  preserves shrinks
    (s <- get ;;
     match open_devices s with
     | [] => ret tt
     | _ :: _ =>
         r <- wait_ready c ;;
         match r with
         | None => ret tt
         | Some rlist => process_ready c rlist
         end
     end).
Proof. repeat (frame_step; eauto using shrinks_wait_ready, shrinks_process_ready). Qed.

(** The state in which an iteration starts to wait: the stale devices
    closed, the scan result added. *)
Lemma watch_devices_refresh c avail s :
  let s2 := (close_stale (cy_os c)
               (filter (fun fd => negb (dict_mem avail fd)) (dict_keys (open_devices s)))
               s).2 in
  let s3 := set_open_devices (add_new avail (open_devices s2)) s2 in
  shrinks s3 (watch_devices c avail s).2.
Proof.
  simpl. pose proof (shrinks_watch_rest c) as Hrest.
  unfold watch_devices. unfold bind at 1. unfold get at 1. unfold bind at 1.
  set (fds := filter _ _).
  destruct (total_run _ s (total_close_stale (cy_os c) fds)) as ([] & s2 & ->).
  simpl. unfold bind at 1. unfold modify at 1. apply Hrest.
Qed.

Lemma refresh_facts c avail s0 s1 :
  monitoring_ok s0 ->
  (forall o, close_fails (cy_os c) o = false) ->
  discover_available_keyboards (cy_os c) s0 = (Ok avail, s1) ->
  let s2 := (close_stale (cy_os c)
               (filter (fun fd => negb (dict_mem avail fd)) (dict_keys (open_devices s1)))
               s1).2 in
  let s3 := set_open_devices (add_new avail (open_devices s2)) s2 in
  monitoring_ok s3 /\ open_devices s3 = avail /\
  (forall fd dev, (fd, dev) ∈ open_devices s0 -> is_open s3 dev = false).
Proof.
  intros (Hok & Hlive & Hnd) Hclose Hrun.
  destruct (discover_facts _ _ _ _ Hrun) as (Hold & Hndav & Hav).
  pose proof (scan_frame_discover (cy_os c) s0) as (_ & _ & _ & Hod & _).
  pose proof (store_step_discover (cy_os c) s0 Hok) as Hok1.
  rewrite Hrun in Hod, Hok1. simpl in Hod, Hok1.
  assert (Hlive1 : monitored_live s1).
  { intros fd dev Hin. rewrite Hod in Hin.
    destruct (Hlive _ _ Hin) as (h & Hh & Hfd & Hpos).
    assert (Hlt : (oid dev < length (heap s0))%nat) by (apply lookup_lt_is_Some; eauto).
    specialize (Hold _ Hlt). rewrite Hh in Hold. simpl in Hold.
    destruct (heap s1 !! oid dev) as [h1|]; [|done]. injection Hold as Hh1.
    exists h1. split; [done|]. split; [congruence|done]. }
  rewrite (fds_to_close_all _ _ _ _ Hok Hlive Hrun).
  destruct (close_stale_spec (cy_os c) (dict_keys (open_devices s1)) s1)
    as (Hlen & _ & Hmono & Hcl & _ & Hsub & _ & Hfr & Hrm).
  pose proof (store_step_close_stale (cy_os c) (dict_keys (open_devices s1)) s1 Hok1)
    as Hok2.
  set (s2 := (close_stale (cy_os c) (dict_keys (open_devices s1)) s1).2) in *.
  assert (Hnd1 : NoDup (dict_keys (open_devices s1))) by (by rewrite Hod).
  specialize (Hrm Hnd1).
  assert (Hget1 : forall fd dev, (fd, dev) ∈ open_devices s0 ->
                    dict_get (open_devices s1) fd = Some dev).
  { intros fd dev Hin. rewrite Hod. by apply dict_get_elem_of. }
  assert (Hempty : open_devices s2 = []).
  { apply elem_of_nil_inv. intros [fd dev] Hin2.
    pose proof (Hsub _ _ Hin2) as Hin. pose proof Hin as Hkey.
    apply (list_elem_of_fmap_2 fst) in Hkey. rewrite Hod in Hin.
    destruct (Hlive1 fd dev) as (h & Hh & _); [by rewrite Hod|].
    assert (Hnone : dict_get (open_devices s2) fd = None).
    { apply (Hrm fd dev); [done|by apply Hget1|by rewrite Hh|done]. }
    apply dict_get_None in Hnone. apply Hnone.
    by apply (list_elem_of_fmap_2 fst) in Hin2. }
  simpl. rewrite Hempty.
  rewrite (add_new_app avail []); [|done|intros k _; apply not_elem_of_nil].
  simpl. split; [|split; [done|]].
  - split; [exact Hok2|]. split; [|done]. intros fd dev Hin. simpl in *.
    destruct (Hav _ _ Hin) as ((h & Hh & Hfd & Hpos & _) & Hnew).
    exists h. split; [|done]. rewrite Hfr; [done|].
    intros fd' dev' Hin' Heq. rewrite Hod in Hin'.
    destruct (Hlive _ _ Hin') as (h' & Hh' & _).
    assert (Hlt : (oid dev' < length (heap s0))%nat) by (apply lookup_lt_is_Some; eauto).
    lia.
  - intros fd dev Hin. unfold is_open, handle_open. simpl.
    apply (Hcl fd dev); [|by apply Hget1].
    rewrite Hod. by apply (list_elem_of_fmap_2 fst) in Hin.
Qed.

Lemma loop_body_monitoring c s :
  monitoring_ok s ->
  (forall o, close_fails (cy_os c) o = false) ->
  (loop_body c s).1 = Ok tt ->
  let s' := (loop_body c s).2 in
  monitoring_ok s' /\
  (forall fd dev, (fd, dev) ∈ open_devices s -> is_open s' dev = false) /\
  (forall fd dev, (fd, dev) ∈ open_devices s' -> (length (heap s) <= oid dev)%nat).
Proof.
  intros Hinv Hclose Hret. simpl. unfold loop_body, bind in *.
  destruct (discover_available_keyboards (cy_os c) s) as [[avail|e] s1] eqn:Hrun;
    [|done].
  destruct (refresh_facts c avail s s1 Hinv Hclose Hrun) as (Hinv3 & Hod3 & Hcl3).
  destruct (watch_devices_refresh c avail s1) as (Hkeep & Hsub & Hmono).
  destruct (discover_facts _ _ _ _ Hrun) as (_ & _ & Hav).
  split; [auto|]. split; [eauto|].
  simpl in Hod3, Hsub. rewrite Hod3 in Hsub.
  intros fd dev Hin. by destruct (Hav _ _ (Hsub _ _ Hin)).
Qed.

(** X15. In an iteration whose scan returns and in which no [close()]
    fails, a sound monitoring set is replaced as a whole: every device that
    was monitored is closed, whether it had anything to read or not, and
    what is monitored afterwards are objects the scan of this iteration
    created. The monitoring set is sound again for the next iteration. *)
Theorem an_iteration_replaces_the_monitoring_set c s :
  monitoring_ok s ->
  (forall o, close_fails (cy_os c) o = false) ->
  (loop_body c s).1 = Ok tt ->
  let s' := (loop_body c s).2 in
  monitoring_ok s' /\
  (forall fd dev, (fd, dev) ∈ open_devices s -> is_open s' dev = false) /\
  (forall fd dev, (fd, dev) ∈ open_devices s' -> (length (heap s) <= oid dev)%nat).
Proof. apply loop_body_monitoring. Qed.

Lemma an_iteration_replaces_the_monitoring_set_witness :
  let s' := (loop_body (typing desk "/dev/input/event1" [key_release]) watching).2 in
  monitoring_ok s' /\
  (forall fd dev, (fd, dev) ∈ open_devices watching -> is_open s' dev = false) /\
  (forall fd dev, (fd, dev) ∈ open_devices s' -> (length (heap watching) <= oid dev)%nat).
Proof.
  apply (an_iteration_replaces_the_monitoring_set
           (typing desk "/dev/input/event1" [key_release]) watching).
  - split; [|split].
    + intros i j h h' Hi Hj Hpos Heq.
      destruct i as [|i]; [|by destruct i]. destruct j as [|j]; [done|by destruct j].
    + intros fd dev Hin. apply list_elem_of_singleton in Hin as [= -> ->].
      by exists (mkHandle 3 2050).
    + vm_compute. repeat constructor. intros Hin. by apply elem_of_nil in Hin.
  - done.
  - vm_compute. reflexivity.
Defined.

Lemma monitoring_ok_entry s :
  heap s = [] -> monitoring_ok (set_open_devices [] s).
Proof.
  intros Hheap. split; [|split].
  - intros i j h h' Hi. simpl in Hi. by rewrite Hheap in Hi.
  - intros fd dev Hin. by apply elem_of_nil in Hin.
  - constructor.
Qed.

(** X16. Soundness of the monitoring set is an invariant of the loop: in
    iterations in which no [close()] fails and no scan raises, no
    descriptor comes to be monitored twice, every monitored device stays
    open on the descriptor it is monitored under, and open handles keep
    distinct descriptors. It holds when the loop is entered. *)
Theorem the_monitoring_set_stays_sound cycles s st :
  monitoring_ok s ->
  (forall c, c ∈ cycles -> forall o, close_fails (cy_os c) o = false) ->
  (monitor_loop cycles s).1 = Ok st ->
  monitoring_ok (monitor_loop cycles s).2.
Proof.
  revert s st.
  induction cycles as [|c cycles IH]; intros s st Hinv Hclose; simpl.
  - by repeat case_match.
  - destruct (negb (is_running s)); [done|].
    destruct (2 <? current_player_registering s); [done|].
    pose proof (loop_body_monitoring c s Hinv) as Hbody.
    destruct (loop_body c s) as [[[]|e] s1]; [|done]. simpl in Hbody.
    destruct Hbody as (Hinv1 & _); [|done|].
    { apply Hclose, elem_of_cons. by left. }
    apply IH; [done|]. intros c' Hc'. apply Hclose, elem_of_cons. by right.
Qed.

Lemma the_monitoring_set_stays_sound_witness :
  monitoring_ok (monitor_loop session session_entry).2.
Proof.
  apply (the_monitoring_set_stays_sound session session_entry Exited).
  - apply (monitoring_ok_entry (set_trace _ _)). reflexivity.
  - intros c Hin o. repeat (apply elem_of_cons in Hin as [-> | Hin]; [done|]).
    by apply elem_of_nil in Hin.
  - vm_compute. reflexivity.
Defined.

(** ** What the windows are asked to show *)

Lemma scheduled_range cycles final_os n :
  n ∈ scheduled (trace (start cycles final_os).2) -> 2 <= n <= 3.
Proof.
  pose proof (start_keeps_ledger_inv cycles final_os) as (Hr & _ & _).
  destruct (thread_run cycles final_os _ initial_flag_inv initial_notified)
    as ((_ & Hs) & _).
  fold (start cycles final_os) in Hs. rewrite Hs.
  intros Hin. apply elem_of_seqZ in Hin. lia.
Qed.

(** X17. Every update that the thread requests makes both windows show one
    and the same text: the prompt for player 2 when the request follows
    the first registration and slot 2 is still empty as the update runs,
    and the list of registered keyboards otherwise. The prompt for player 1
    is not shown again. *)
Theorem requested_updates_show_the_next_step cycles final_os n ledger w0 w1 t0 t1 :
  n ∈ scheduled (trace (start cycles final_os).2) ->
  let message :=
    if (n =? 2) && negb (dict_mem ledger 2) then prompt_2
    else completion_message ledger in
  update_ui n ledger (mkScreen [Some w0; Some w1] [Some t0; Some t1])
  = Some (mkScreen [Some w0; Some w1] [Some message; Some message]).
Proof.
  intros Hin. apply scheduled_range in Hin.
  assert (Hmsg : update_ui_message n ledger
                 = if (n =? 2) && negb (dict_mem ledger 2) then prompt_2
                   else completion_message ledger).
  { unfold update_ui_message. destruct (n =? 1) eqn:E1; [|done].
    apply Z.eqb_eq in E1. lia. }
  simpl. unfold update_ui. simpl. by rewrite Hmsg.
Qed.

Lemma requested_updates_show_the_next_step_witness :
  update_ui 2 [(1, keyboard0)] (mkScreen [Some 0%nat; Some 1%nat] [Some ""; Some ""])
  = Some (mkScreen [Some 0%nat; Some 1%nat] [Some prompt_2; Some prompt_2]).
Proof.
  apply (requested_updates_show_the_next_step session desk 2 [(1, keyboard0)]).
  vm_compute. apply elem_of_cons. by left.
Defined.

(** ** The fallback enumeration *)

(** X18. The fallback loop over [evdev.list_devices()] does not open a
    path that is already recorded in [by_id_devices], however often the
    path is listed. *)
Theorem fallback_opens_no_recorded_path os paths by_id_devices s k :
  k ∈ dict_keys by_id_devices ->
  exists t, trace (scan_fallback os paths by_id_devices s).2 = trace s ++ t /\
            CallOpen k ∉ t.
Proof.
  revert by_id_devices s.
  induction paths as [|p paths IH]; intros d s Hk; simpl.
  - exists []. rewrite app_nil_r. split; [done|apply not_elem_of_nil].
  - destruct (dict_mem d p) eqn:Hmem; simpl; [by apply IH|].
    assert (Hne : p <> k).
    { intros ->. apply dict_mem_true in Hk. congruence. }
    unfold bind.
    pose proof (scan_candidate_cases os p d s) as Hcases. simpl in Hcases.
    destruct (scan_candidate os p d s) as [[d1|e] s1]; simpl in *.
    2:{ destruct Hcases as [(_ & ? & _) | (nm & _ & [(_ & ? & _) |
          [(_ & ? & _) | (_ & _ & ? & _)]])]; done. }
    assert (Hstep : k ∈ dict_keys d1 /\
              exists t1, trace s1 = trace s ++ t1 /\ CallOpen k ∉ t1).
    { destruct Hcases as [(_ & Hd & _ & Ht) | (nm & _ & [(_ & Hd & _ & Ht) |
        [(_ & Hd & _ & Ht) | (_ & _ & Hd & _ & Ht)]])];
        injection Hd as ->; (split; [try done; apply dict_set_keys; by right|]);
        eexists; (split; [exact Ht|]);
        rewrite ?not_elem_of_cons; repeat split;
        try apply not_elem_of_nil; congruence. }
    destruct Hstep as (Hk1 & t1 & Ht1 & Hni1).
    destruct (IH d1 s1 Hk1) as (t & Ht & Hni).
    exists (t1 ++ t). split; [by rewrite Ht, Ht1, app_assoc|].
    rewrite elem_of_app. tauto.
Qed.

Lemma fallback_opens_no_recorded_path_witness :
  exists t,
    trace (scan_fallback desk (list_devices desk) [("/dev/input/event0", keyboard0)]
             watching).2
    = trace watching ++ t /\
    CallOpen "/dev/input/event0" ∉ t.
Proof.
  apply (fallback_opens_no_recorded_path desk (list_devices desk)
           [("/dev/input/event0", keyboard0)] watching "/dev/input/event0").
  apply elem_of_cons. by left.
Defined.
